(** * check_urbackup: status evaluation and aggregation

    A shallow embedding of [check_urbackup.py] and the properties of its
    per-client evaluation ([get_status]), its aggregation loop
    ([get_global_status]) and its top-level exit-code handling.

    Python objects live in a store: a client record is a [dict] reached
    through a reference, so that the in-place updates of [get_status] and
    the sharing of one record between several list positions are visible.
    Code is written in a state-and-exception monad over that store. *)

From Stdlib Require Import ZArith.
From stdpp Require Import base gmap strings list pretty.

Local Open Scope Z_scope.

(** ** Python values and exceptions *)

(** The values a decoded JSON status record holds. *)
Inductive value :=
  | VNone
  | VBool (b : bool)
  | VInt (n : Z)
  | VStr (s : string).

(** Exceptions the program can meet.  [ReError] is [re.error],
    [ArgumentTypeError] is [argparse]'s, [CollaboratorError] whatever
    [urbackup_api] raises.  [SystemExit] is
    what [sys.exit] raises; it derives from [BaseException], not from
    [Exception]. *)
Inductive exn :=
  | KeyError (key : string)
  | TypeError
  | ValueError
  | OverflowError
  | OSError
  | ReError
  | ArgumentTypeError
  | CollaboratorError
  | SystemExit (code : Z).

Inductive result (A : Type) :=
  | Ok (a : A)
  | Raise (e : exn).
Arguments Ok {A} a.
Arguments Raise {A} e.

(** [class BackupStatus(Enum)] *)
Inductive BackupStatus := OK | WARNING | CRITICAL.

Global Instance BackupStatus_eq_dec : EqDecision BackupStatus.
Proof. solve_decision. Defined.

(** The enum's [value]: OK = 0, WARNING = 1, CRITICAL = 2. *)
Definition enum_value (s : BackupStatus) : Z :=
  match s with OK => 0 | WARNING => 1 | CRITICAL => 2 end.

(** [class BackupStatusResponse] *)
Record BackupStatusResponse := mkResponse {
  status : BackupStatus;
  error : string
}.

(** Truth value of an object, as [not x], [if x] and [and] use it. *)
Definition truthy (v : value) : bool :=
  match v with
  | VNone => false
  | VBool b => b
  | VInt n => negb (Z.eqb n 0)
  | VStr s => negb (String.eqb s "")
  end.

(** [str(x)], which is what an f-string field [{x}] inserts. *)
Definition py_str (v : value) : string :=
  match v with
  | VNone => "None"
  | VBool true => "True"
  | VBool false => "False"
  | VInt n => pretty n
  | VStr s => s
  end.

(** [sep.join(parts)] *)
Fixpoint join (sep : string) (parts : list string) : string :=
  match parts with
  | [] => ""
  | [p] => p
  | p :: rest => p +:+ sep +:+ join sep rest
  end.

(** Truth value of an optional command-line number ([None] when the
    option was not given). *)
Definition truthy_opt (m : option Z) : bool :=
  match m with
  | None => false
  | Some n => negb (Z.eqb n 0)
  end.

(** ** The store *)

Abbreviation dict := (gmap string value).
Abbreviation ref := nat.

Record world := mkWorld {
  heap : gmap ref dict;      (* the dict object behind each reference *)
  ticks : nat;               (* how often the wall clock has been read *)
  stdout : list string       (* lines printed so far, oldest first *)
}.

Definition set_heap (h : gmap ref dict) (w : world) : world :=
  {| heap := h; ticks := ticks w; stdout := stdout w |}.

(** ** The monad: a computation runs in a world and ends in a value or a
    raised exception; what it did to the world stays done either way. *)

Definition py (A : Type) : Type := world → result A * world.

Global Instance py_ret : MRet py := λ A a w, (Ok a, w).
Global Instance py_bind : MBind py := λ A B f m w,
  match m w with
  | (Ok a, w') => f a w'
  | (Raise e, w') => (Raise e, w')
  end.

Definition raise {A} (e : exn) : py A := λ w, (Raise e, w).

(** The same sequencing without a world, for functions that only fail. *)
Global Instance result_ret : MRet result := λ A a, Ok a.
Global Instance result_bind : MBind result := λ A B f r,
  match r with
  | Ok a => f a
  | Raise e => Raise e
  end.

Definition lift {A} (r : result A) : py A := λ w, (r, w).

(** [d[key]].  A reference always leads to an object in Python; one
    that is not in the store is given the error of subscripting
    something that is not a [dict]. *)
Definition getitem (d : ref) (key : string) : py value := λ w,
  match heap w !! d with
  | Some o =>
      match o !! key with
      | Some v => (Ok v, w)
      | None => (Raise (KeyError key), w)
      end
  | None => (Raise TypeError, w)
  end.

(** [key in d] *)
Definition contains (d : ref) (key : string) : py bool := λ w,
  match heap w !! d with
  | Some o => (Ok (bool_decide (is_Some (o !! key))), w)
  | None => (Raise TypeError, w)
  end.

(** [d[key] = v] *)
Definition setitem (d : ref) (key : string) (v : value) : py unit := λ w,
  match heap w !! d with
  | Some o => (Ok (), set_heap (<[d := <[key := v]> o]> (heap w)) w)
  | None => (Raise TypeError, w)
  end.

(** [print(line)] *)
Definition print (line : string) : py unit := λ w,
  (Ok (), {| heap := heap w; ticks := ticks w; stdout := stdout w ++ [line] |}).

(** ** Dates *)

(** A naive [datetime] is a reading of the wall clock and carries no
    zone: the number of microseconds that the date and time of day it
    shows lie after 1970-01-01 00:00:00 on the same clock.  Two of them
    are subtracted field by field, whatever offsets from UTC were in
    force when they were taken. *)
Abbreviation datetime := Z.

(** [timedelta], normalised as Python keeps it: [0 <= seconds < 86400],
    [0 <= microseconds < 1000000], the sign in [days]. *)
Record timedelta := mkDelta {
  days : Z;
  seconds : Z;
  microseconds : Z
}.

Definition datetime_sub (a b : datetime) : timedelta :=
  let us := a - b in
  {| days := us / 86400000000;
     seconds := (us / 1000000) mod 86400;
     microseconds := us mod 1000000 |}.

(** Why [datetime.fromtimestamp] has no [datetime] for a number: the
    year lies outside 1 to 9999 ([ValueError]), the number is out of
    the range of the platform's [time_t] ([OverflowError]), or the
    platform's [localtime] fails ([OSError]). *)
Inductive stamp_error :=
  | YearOutOfRange
  | TimestampOverflow
  | LocaltimeFailure.

Definition stamp_exn (e : stamp_error) : exn :=
  match e with
  | YearOutOfRange => ValueError
  | TimestampOverflow => OverflowError
  | LocaltimeFailure => OSError
  end.

(** ** Command-line arguments and the count mapping *)

(** The [args] namespace of [argparse], as far as the checks read it:
    the two ages are [None] unless the option was given. *)
Record Args := mkArgs {
  client : string;
  maxfiledays : option Z;
  maximagedays : option Z
}.

(** Keys of [global_count]: the three enum members and ["all"]. *)
Inductive count_key :=
  | KStatus (s : BackupStatus)
  | KAll.

Global Instance count_key_eq_dec : EqDecision count_key.
Proof. solve_decision. Defined.

Definition count_key_code (k : count_key) : nat :=
  match k with
  | KStatus OK => 0
  | KStatus WARNING => 1
  | KStatus CRITICAL => 2
  | KAll => 3
  end%nat.

Definition count_key_decode (n : nat) : option count_key :=
  match n with
  | 0 => Some (KStatus OK)
  | 1 => Some (KStatus WARNING)
  | 2 => Some (KStatus CRITICAL)
  | 3 => Some KAll
  | _ => None
  end%nat.

Global Instance count_key_countable : Countable count_key.
Proof.
  apply (inj_countable count_key_code count_key_decode).
  by intros [[]|].
Defined.

Abbreviation counts := (gmap count_key Z).

Definition count_key_repr (k : count_key) : string :=
  match k with
  | KStatus OK => "BackupStatus.OK"
  | KStatus WARNING => "BackupStatus.WARNING"
  | KStatus CRITICAL => "BackupStatus.CRITICAL"
  | KAll => "all"
  end.

Definition newline : string := String (Ascii.ascii_of_nat 10) "".

(** What [get_status] holds in local variables once it has read the
    record (lines 49-75 of the source). *)
Record locals := mkLocals {
  file_failed : bool;
  file_str : string;
  image_failed : bool;
  image_str : string;
  client_online : value;
  client_name : value;
  last_file_backup : datetime;
  last_image_backup : datetime;
  file_old : bool;
  image_old : bool
}.

(** The running variables of the aggregation loop. *)
Record fold_state := mkFold {
  global_status : BackupStatus;
  global_details : string;
  global_count : counts
}.

(** [for x in xs: st = body(st, x)] *)
Fixpoint for_each {S : Type} (body : S → ref → py S) (st : S)
    (xs : list ref) : py S :=
  match xs with
  | [] => mret st
  | x :: rest => st' ← body st x; for_each body st' rest
  end.

(** [try: body / except Exception as e: handler(e)].  [SystemExit] is
    not an [Exception] and passes through. *)
Definition try_except {A} (body : py A) (handler : exn → py A) : py A :=
  λ w,
    match body w with
    | (Raise (SystemExit n), w') => (Raise (SystemExit n), w')
    | (Raise e, w') => handler e w'
    | (Ok a, w') => (Ok a, w')
    end.

(** [sys.exit(code)] *)
Definition sys_exit {A} (code : Z) : py A := raise (SystemExit code).

(** Exit status of the interpreter for the way the module ended. *)
Definition exit_code {A} (r : result A) : Z :=
  match r with
  | Ok _ => 0
  | Raise (SystemExit n) => n
  | Raise _ => 1
  end.

(** ** The program *)

Section Program.

Set Default Proof Using "Type".

(** What the program takes from its libraries and its platform. *)

(** [datetime.fromtimestamp(n)] on an [int]: the wall-clock time of the
    local zone at [n] seconds after the epoch, or the reason why there
    is none.  Which reading belongs to [n] is a matter of the zone of
    the platform and of its daylight-saving rules. *)
Variable localtime : Z → datetime + stamp_error.
(** [datetime.now()] at its n-th call, n counted from 0. *)
Variable clock : nat → datetime.
(** [t.strftime('%x %X')], which depends on the locale. *)
Variable strftime : datetime → string.
(** Compiled patterns of [re]; [re.compile] raises [re.error] on a
    pattern it cannot parse; [Pattern.fullmatch] on a [str]. *)
Variable Pattern : Type.
Variable re_compile : string → option Pattern.
Variable fullmatch : Pattern → string → bool.
(** [str(e)] of an exception. *)
Variable exn_str : exn → string.

(** [datetime.fromtimestamp(v)]; a [bool] is an [int], anything else
    that is no number is refused. *)
Definition fromtimestamp (v : value) : result datetime :=
  match v with
  | VInt n =>
      match localtime n with
      | inl t => Ok t
      | inr e => Raise (stamp_exn e)
      end
  | VBool b =>
      match localtime (Z.b2z b) with
      | inl t => Ok t
      | inr e => Raise (stamp_exn e)
      end
  | _ => Raise TypeError
  end.

(** [datetime.now()] *)
Definition datetime_now : py datetime := λ w,
  (Ok (clock (ticks w)),
   {| heap := heap w; ticks := S (ticks w); stdout := stdout w |}).

(** [is_file_old] and [is_image_old] are the same text up to the two
    keys they read.

    [int(diff.seconds / 60 / 60)] is the integer quotient by 3600 for
    the values [diff.seconds] takes (0 to 86399), and
    [diff_hours / 24 > max_days], a quotient of integers against an
    integer, is [diff_hours > 24 * max_days].  [a and not b] on a
    [bool] [a] is a [bool]. *)
Definition is_old (disabled_key time_key : string)
    (client_data : ref) (max_days : Z) : py bool :=
  disabled ← getitem client_data disabled_key;
  stamp ← getitem client_data time_key;
  last_backup ← lift (fromtimestamp stamp);
  now ← datetime_now;
  let diff := datetime_sub now last_backup in
  let diff_hours := seconds diff / 3600 in
  mret (Z.ltb (24 * max_days) diff_hours && negb (truthy disabled)).

Definition is_file_old : ref → Z → py bool :=
  is_old "file_disabled" "lastbackup".

Definition is_image_old : ref → Z → py bool :=
  is_old "image_disabled" "lastbackup_image".

(** Lines 43-46, once per flag: [if key not in d: d[key] = False]. *)
Definition default_disabled (client_data : ref) (key : string) : py unit :=
  present ← contains client_data key;
  if present : bool then mret () else setitem client_data key (VBool false).

(** Lines 49-57 (and 60-68): the [failed] flag and the status text of
    one backup type. *)
Definition backup_flags (client_data : ref) (ok_key disabled_key : string)
    : py (bool * string) :=
  ok ← getitem client_data ok_key;
  failed ← (if truthy ok then mret false
            else disabled ← getitem client_data disabled_key;
                 mret (negb (truthy disabled)));
  if failed : bool then mret (true, "No recent backup")
  else
    ok' ← getitem client_data ok_key;
    if truthy ok' then mret (false, "OK") else mret (false, "Disabled").

(** Lines 74-75: [is_..._old(client_data, m) if m else False]. *)
Definition old_if_configured (check : ref → Z → py bool)
    (client_data : ref) (max_days : option Z) : py bool :=
  match max_days with
  | Some m => if truthy_opt max_days then check client_data m else mret false
  | None => mret false
  end.

(** Lines 43-75: everything [get_status] reads. *)
Definition read_client (client_data : ref)
    (maxfiledays maximagedays : option Z) : py locals :=
  default_disabled client_data "file_disabled";;
  default_disabled client_data "image_disabled";;
  '(file_failed, file_str) ← backup_flags client_data "file_ok" "file_disabled";
  '(image_failed, image_str) ← backup_flags client_data "image_ok" "image_disabled";
  client_online ← getitem client_data "online";
  client_name ← getitem client_data "name";
  stamp_file ← getitem client_data "lastbackup";
  last_file_backup ← lift (fromtimestamp stamp_file);
  stamp_image ← getitem client_data "lastbackup_image";
  last_image_backup ← lift (fromtimestamp stamp_image);
  file_old ← old_if_configured is_file_old client_data maxfiledays;
  image_old ← old_if_configured is_image_old client_data maximagedays;
  mret {| file_failed := file_failed; file_str := file_str;
          image_failed := image_failed; image_str := image_str;
          client_online := client_online; client_name := client_name;
          last_file_backup := last_file_backup;
          last_image_backup := last_image_backup;
          file_old := file_old; image_old := image_old |}.

(** Lines 84-95. *)
Definition client_status_of (v : locals) : BackupStatus :=
  let any_backup_failed := file_failed v || image_failed v in
  let any_backup_old := file_old v || image_old v in
  if negb (truthy (client_online v)) then
    if any_backup_failed || any_backup_old then CRITICAL else WARNING
  else
    if negb any_backup_failed && negb any_backup_old then OK else CRITICAL.

(** Lines 98-113. *)
Definition client_details_of (v : locals) (client_status : BackupStatus)
    : list string :=
  if bool_decide (client_status ≠ OK) then
    ["<b>HostName: " +:+ py_str (client_name v) +:+ "</b>, Online: "
       +:+ py_str (client_online v)]
    ++ (if file_old v
        then ["<b>Last Filebackup: " +:+ strftime (last_file_backup v) +:+ "</b>"]
        else [])
    ++ (if file_failed v
        then ["<b>Status Filebackup: " +:+ file_str v +:+ "</b>"]
        else [])
    ++ (if image_old v
        then ["<b>Last Imagebackup: " +:+ strftime (last_image_backup v) +:+ "</b>"]
        else [])
    ++ (if image_failed v
        then ["<b>Status Imagebackup: " +:+ image_str v +:+ "</b>"]
        else [])
  else [].

(** Lines 84-115: the verdict from the local variables. *)
Definition verdict (v : locals) : BackupStatusResponse :=
  let client_status := client_status_of v in
  let client_details := client_details_of v client_status in
  {| status := client_status; error := join ", " client_details |}.

Definition get_status (client_data : ref)
    (maxfiledays maximagedays : option Z) : py BackupStatusResponse :=
  v ← read_client client_data maxfiledays maximagedays;
  mret (verdict v).

(** [global_count[key] += 1] *)
Definition increment (key : count_key) (c : counts) : py counts :=
  match c !! key with
  | Some n => mret (<[key := n + 1]> c)
  | None => raise (KeyError (count_key_repr key))
  end.

(** [regex.fullmatch(name)] as a truth value *)
Definition fullmatch_value (regex : Pattern) (name : value) : result bool :=
  match name with
  | VStr s => Ok (fullmatch regex s)
  | _ => Raise TypeError
  end.

(** Lines 140-145. *)
Definition initial_state : fold_state :=
  {| global_status := OK;
     global_details := "";
     global_count :=
       <[KAll := 0]> (<[KStatus CRITICAL := 0]> (<[KStatus WARNING := 0]>
         (<[KStatus OK := 0]> ∅))) |}.

(** Lines 147-159: the body of the loop. *)
Definition visit (regex : Pattern) (args : Args) (st : fold_state)
    (client : ref) : py fold_state :=
  name ← getitem client "name";
  matched ← lift (fullmatch_value regex name);
  if matched : bool then
    response ← get_status client (maxfiledays args) (maximagedays args);
    count ← increment (KStatus (status response)) (global_count st);
    count ← increment KAll count;
    if bool_decide (status response = OK) then
      mret {| global_status := global_status st;
              global_details := global_details st;
              global_count := count |}
    else if bool_decide (status response = WARNING)
            && bool_decide (global_status st ≠ CRITICAL) then
      mret {| global_status := WARNING;
              global_details := global_details st +:+ error response +:+ newline;
              global_count := count |}
    else
      mret {| global_status := CRITICAL;
              global_details := global_details st +:+ error response +:+ newline;
              global_count := count |}
  else mret st.

(** Lines 136-160; [args] is the module-level namespace it reads. *)
Definition get_global_status (args : Args) (client_array : list ref)
    (client_pattern : string) : py (BackupStatus * string * counts) :=
  regex ← match re_compile client_pattern with
          | Some regex => mret regex
          | None => raise ReError
          end;
  st ← for_each (visit regex args) initial_state client_array;
  mret (global_status st, global_details st, global_count st).

(** Lines 163-167, on the number [int(value)] gives: the type of the
    two age options. *)
Definition check_positive (ivalue : Z) : result Z :=
  if Z.leb ivalue 0 then Raise ArgumentTypeError else Ok ivalue.

(** [status[key]] at lines 185, 189 and 193, where [status] is the
    [BackupStatus] member returned first by [get_global_status]: an
    enum member has no item access. *)
Definition status_getitem (s : BackupStatus) (key : count_key) : py Z :=
  raise TypeError.

(** Lines 184-194: what the [try] does with the result. *)
Definition report (status : BackupStatus) (details : string)
    (count : counts) : py unit :=
  if bool_decide (status = CRITICAL) then
    n_ok ← status_getitem status (KStatus OK);
    n_all ← status_getitem status KAll;
    n_warning ← status_getitem status (KStatus WARNING);
    n_critical ← status_getitem status (KStatus CRITICAL);
    print (pretty n_ok +:+ "/" +:+ pretty n_all +:+ " OK, "
           +:+ pretty n_warning +:+ " WARNING, "
           +:+ pretty n_critical +:+ " CRITICAL");;
    print details;;
    sys_exit 2
  else if bool_decide (status = WARNING) then
    n_ok ← status_getitem status (KStatus OK);
    n_all ← status_getitem status KAll;
    n_warning ← status_getitem status (KStatus WARNING);
    print (pretty n_ok +:+ "/" +:+ pretty n_all +:+ " OK, "
           +:+ pretty n_warning +:+ " WARNING");;
    print details;;
    sys_exit 1
  else if bool_decide (status = OK) then
    n_ok ← status_getitem status (KStatus OK);
    n_all ← status_getitem status KAll;
    print (pretty n_ok +:+ "/" +:+ pretty n_all +:+ " OK");;
    sys_exit 0
  else mret ().

(** Lines 180-194, the body of the [try].  The two calls into
    [urbackup_api] are [fetch]. *)
Definition try_body (fetch : py (list ref)) (args : Args) : py unit :=
  clients ← fetch;
  let client_regex := client args in
  '(status, details, count) ← get_global_status args clients client_regex;
  report status details count.

(** Lines 179-198. *)
Definition main (fetch : py (list ref)) (args : Args) : py unit :=
  try_except (try_body fetch args)
    (λ e, print ("Error Occured:  " +:+ exn_str e));;
  print "UNKOWN";;
  sys_exit 3.


(** ** The verdict as a function of the record

    What [get_status] answers is fixed by the content of the record
    alone.  The functions below compute that answer from a [dict];
    [get_status_run] proves that the program returns it. *)

Definition lookup_item (d : dict) (key : string) : result value :=
  match d !! key with
  | Some v => Ok v
  | None => Raise (KeyError key)
  end.

(** The record after lines 43-46. *)
Definition with_default (key : string) (d : dict) : dict :=
  if bool_decide (is_Some (d !! key)) then d else <[key := VBool false]> d.

Definition with_defaults (d : dict) : dict :=
  with_default "image_disabled" (with_default "file_disabled" d).

Definition flags_of (d : dict) (ok_key disabled_key : string)
    : result (bool * string) :=
  ok ← lookup_item d ok_key;
  failed ← (if truthy ok then Ok false
            else disabled ← lookup_item d disabled_key;
                 Ok (negb (truthy disabled)));
  if failed : bool then Ok (true, "No recent backup")
  else if truthy ok then Ok (false, "OK") else Ok (false, "Disabled").

(** The staleness test never depends on the time of day it is made
    at: [diff_hours] lies between 0 and 23, so a limit of one day or
    more is never exceeded and a negative one always is. *)
Definition old_of (d : dict) (disabled_key time_key : string)
    (max_days : option Z) : result bool :=
  match max_days with
  | Some m =>
      if truthy_opt max_days then
        disabled ← lookup_item d disabled_key;
        stamp ← lookup_item d time_key;
        _ ← fromtimestamp stamp;
        Ok (Z.ltb m 0 && negb (truthy disabled))
      else Ok false
  | None => Ok false
  end.

Definition locals_of (d : dict) (maxfiledays maximagedays : option Z)
    : result locals :=
  let d := with_defaults d in
  '(file_failed, file_str) ← flags_of d "file_ok" "file_disabled";
  '(image_failed, image_str) ← flags_of d "image_ok" "image_disabled";
  client_online ← lookup_item d "online";
  client_name ← lookup_item d "name";
  stamp_file ← lookup_item d "lastbackup";
  last_file_backup ← fromtimestamp stamp_file;
  stamp_image ← lookup_item d "lastbackup_image";
  last_image_backup ← fromtimestamp stamp_image;
  file_old ← old_of d "file_disabled" "lastbackup" maxfiledays;
  image_old ← old_of d "image_disabled" "lastbackup_image" maximagedays;
  Ok {| file_failed := file_failed; file_str := file_str;
        image_failed := image_failed; image_str := image_str;
        client_online := client_online; client_name := client_name;
        last_file_backup := last_file_backup;
        last_image_backup := last_image_backup;
        file_old := file_old; image_old := image_old |}.

Definition response_of (d : dict) (maxfiledays maximagedays : option Z)
    : result BackupStatusResponse :=
  v ← locals_of d maxfiledays maximagedays; Ok (verdict v).

(** ** Well-formed records *)

Definition is_str (o : option value) : bool :=
  match o with Some (VStr _) => true | _ => false end.

Definition is_bool (o : option value) : bool :=
  match o with Some (VBool _) => true | _ => false end.

Definition is_optional_bool (o : option value) : bool :=
  match o with None | Some (VBool _) => true | _ => false end.

(** An [int] that [datetime.fromtimestamp] has a [datetime] for. *)
Definition is_timestamp (o : option value) : bool :=
  match o with
  | Some (VInt n) =>
      match fromtimestamp (VInt n) with Ok _ => true | Raise _ => false end
  | _ => false
  end.

(** A record as the server's status endpoint sends it: the six
    required fields with their types, the two optional flags. *)
Definition well_formed (d : dict) : bool :=
  is_str (d !! "name") && is_bool (d !! "online")
  && is_bool (d !! "file_ok") && is_bool (d !! "image_ok")
  && is_timestamp (d !! "lastbackup")
  && is_timestamp (d !! "lastbackup_image")
  && is_optional_bool (d !! "file_disabled")
  && is_optional_bool (d !! "image_disabled").

(** A boolean field of a record; an absent one reads as [False]. *)
Definition flag (d : dict) (key : string) : bool :=
  match d !! key with
  | Some v => truthy v
  | None => false
  end.

(** Every reference of the list leads to a well-formed record. *)
Definition well_formed_fleet (h : gmap ref dict) (clients : list ref) : Prop :=
  ∀ l, l ∈ clients → ∃ d, h !! l = Some d ∧ well_formed d = true.

(** Every reference of the list leads to a record with a [str] name. *)
Definition named_fleet (h : gmap ref dict) (clients : list ref) : Prop :=
  ∀ l, l ∈ clients → ∃ d s, h !! l = Some d ∧ d !! "name" = Some (VStr s).

(** The record behind [l] has a name that the pattern matches in full. *)
Definition name_matches (regex : Pattern) (h : gmap ref dict) (l : ref) : bool :=
  match h !! l with
  | Some d =>
      match d !! "name" with
      | Some (VStr s) => fullmatch regex s
      | _ => false
      end
  | None => false
  end.

(** [t] occurs in [s]. *)
Definition contains_text (s t : string) : Prop :=
  ∃ before after, s = before +:+ t +:+ after.

(** ** The aggregation as the specification words it *)

(** The merge table of the specification: running status against the
    verdict of the next client. *)
Definition merge (running new : BackupStatus) : BackupStatus :=
  match running, new with
  | OK, OK => OK
  | OK, WARNING => WARNING
  | OK, CRITICAL => CRITICAL
  | WARNING, OK => WARNING
  | WARNING, WARNING => WARNING
  | WARNING, CRITICAL => CRITICAL
  | CRITICAL, _ => CRITICAL
  end.

(** Steps 1 to 5 of the folding algorithm for one client that takes
    part: evaluate, count, merge, append the detail of a verdict
    that is not OK. *)
Definition fold_client (args : Args) (st : fold_state) (client : ref)
    : py fold_state :=
  response ← get_status client (maxfiledays args) (maximagedays args);
  count ← increment (KStatus (status response)) (global_count st);
  count ← increment KAll count;
  mret {| global_status := merge (global_status st) (status response);
          global_details :=
            if bool_decide (status response = OK) then global_details st
            else global_details st +:+ error response +:+ newline;
          global_count := count |}.

Definition aggregate (args : Args) (participants : list ref)
    : py (BackupStatus * string * counts) :=
  st ← for_each (fold_client args) initial_state participants;
  mret (global_status st, global_details st, global_count st).

(** The verdicts of the matching clients, in input order. *)
Fixpoint verdicts (regex : Pattern) (args : Args) (clients : list ref)
    : py (list BackupStatusResponse) :=
  match clients with
  | [] => mret []
  | client :: rest =>
      name ← getitem client "name";
      matched ← lift (fullmatch_value regex name);
      if matched : bool then
        response ← get_status client (maxfiledays args) (maximagedays args);
        others ← verdicts regex args rest;
        mret (response :: others)
      else verdicts regex args rest
  end.

(** One block and a line break per verdict that is not OK. *)
Fixpoint detail_text (responses : list BackupStatusResponse) : string :=
  match responses with
  | [] => ""
  | r :: rest =>
      if bool_decide (status r = OK) then detail_text rest
      else error r +:+ newline +:+ detail_text rest
  end.

(** ** Worked data *)

(** A stand-in for [re]: exact on the default pattern and on patterns
    without metacharacters, enough for the worked examples. *)
Definition sample_compile (p : string) : option string :=
  if String.eqb p "(" then None else Some p.
Definition sample_fullmatch (p s : string) : bool :=
  if String.eqb p ".*" then true else String.eqb p s.
Definition sample_strftime (t : datetime) : string := pretty t.

(** A stand-in for the platform: the zone is UTC and [time_t] has 32
    bits. *)
Definition utc (n : Z) : datetime + stamp_error :=
  if Z.leb (-2147483648) n && Z.leb n 2147483647
  then inl (n * 1000000) else inr TimestampOverflow.

(** A zone one hour ahead of UTC that moves to two hours ahead at
    2024-03-31 01:00:00 UTC, as central Europe did. *)
Definition cet (n : Z) : datetime + stamp_error :=
  inl ((n + (if Z.ltb n 1711846800 then 3600 else 7200)) * 1000000).

Definition sample_exn_str (e : exn) : string :=
  match e with
  | TypeError => "'BackupStatus' object is not subscriptable"
  | _ => "error"
  end.

Definition record (name : string) (online file_ok image_ok : bool)
    (lastbackup lastbackup_image : Z) : dict :=
  <["name" := VStr name]> (<["online" := VBool online]>
  (<["file_ok" := VBool file_ok]> (<["image_ok" := VBool image_ok]>
  (<["lastbackup" := VInt lastbackup]>
  (<["lastbackup_image" := VInt lastbackup_image]> ∅))))).

(** 2023-11-14 22:13:20 UTC, and the same instant ten days later. *)
Definition sample_time : Z := 1700000000.
Definition sample_clock (n : nat) : datetime :=
  (sample_time + 864000) * 1000000 + Z.of_nat n.

(** Five clients whose last backups are ten days older than the
    clock: healthy; offline; failed file backup; file backup disabled
    and marked not ok; healthy with both optional flags present. *)
Definition client_a : dict := record "a" true true true sample_time sample_time.
Definition client_b : dict := record "b" false true true sample_time sample_time.
Definition client_c : dict := record "c" true false true sample_time sample_time.
Definition client_d : dict :=
  <["file_disabled" := VBool true]>
    (record "d" true false true sample_time sample_time).
Definition client_e : dict :=
  <["image_disabled" := VBool false]> (<["file_disabled" := VBool false]>
    (record "e" true true true sample_time sample_time)).

Definition sample_heap : gmap ref dict :=
  <[0%nat := client_a]> (<[1%nat := client_b]> (<[2%nat := client_c]>
  (<[3%nat := client_d]> (<[4%nat := client_e]> ∅)))).

Definition sample_world : world :=
  {| heap := sample_heap; ticks := 0; stdout := [] |}.

Definition sample_args : Args :=
  {| client := ".*"; maxfiledays := Some 1; maximagedays := None |}.

(** ** The local variables on a well-formed record *)

(** The text of lines 49-57 for a type with the given two flags. *)
Definition status_text (ok disabled : bool) : string :=
  if negb ok && negb disabled then "No recent backup"
  else if ok then "OK" else "Disabled".

Definition stamp_field (d : dict) (key : string) : datetime :=
  match d !! key with
  | Some v => match fromtimestamp v with Ok t => t | Raise _ => 0 end
  | None => 0
  end.

Definition value_field (d : dict) (key : string) : value :=
  default VNone (d !! key).

Definition old_flag (max_days : option Z) (disabled : bool) : bool :=
  match max_days with
  | Some m => Z.ltb m 0 && negb disabled
  | None => false
  end.

(** What [read_client] returns on a well-formed record
    ([locals_of_well_formed]). *)
Definition expected_locals (d : dict) (maxfiledays maximagedays : option Z)
    : locals :=
  {| file_failed := negb (flag d "file_ok") && negb (flag d "file_disabled");
     file_str := status_text (flag d "file_ok") (flag d "file_disabled");
     image_failed := negb (flag d "image_ok") && negb (flag d "image_disabled");
     image_str := status_text (flag d "image_ok") (flag d "image_disabled");
     client_online := value_field d "online";
     client_name := value_field d "name";
     last_file_backup := stamp_field d "lastbackup";
     last_image_backup := stamp_field d "lastbackup_image";
     file_old := old_flag maxfiledays (flag d "file_disabled");
     image_old := old_flag maximagedays (flag d "image_disabled") |}.

(** ** The loop as a function of the verdicts *)

(** [global_count[key] += 1] as a function. *)
Definition counted (key : count_key) (c : counts) : result counts :=
  match c !! key with
  | Some n => Ok (<[key := n + 1]> c)
  | None => Raise (KeyError (count_key_repr key))
  end.

(** Lines 149-159 as a function of the verdict. *)
Definition settle (st : fold_state) (response : BackupStatusResponse)
    : result fold_state :=
  count ← counted (KStatus (status response)) (global_count st);
  count ← counted KAll count;
  if bool_decide (status response = OK) then
    Ok {| global_status := global_status st;
          global_details := global_details st;
          global_count := count |}
  else if bool_decide (status response = WARNING)
          && bool_decide (global_status st ≠ CRITICAL) then
    Ok {| global_status := WARNING;
          global_details := global_details st +:+ error response +:+ newline;
          global_count := count |}
  else
    Ok {| global_status := CRITICAL;
          global_details := global_details st +:+ error response +:+ newline;
          global_count := count |}.

(** What the loop body finds out about one record: an exception, no
    match, or the verdict of a matching client. *)
Definition record_outcome (regex : Pattern) (args : Args) (d : dict)
    : result (option BackupStatusResponse) :=
  name ← lookup_item d "name";
  matched ← fullmatch_value regex name;
  if matched : bool then
    response ← response_of d (maxfiledays args) (maximagedays args);
    Ok (Some response)
  else Ok None.

Definition outcome_at (regex : Pattern) (args : Args) (h : gmap ref dict)
    (l : ref) : result (option BackupStatusResponse) :=
  match h !! l with
  | Some d => record_outcome regex args d
  | None => Raise TypeError
  end.

Definition absorb (st : fold_state) (o : option BackupStatusResponse)
    : result fold_state :=
  match o with
  | Some response => settle st response
  | None => Ok st
  end.

Fixpoint pure_fold (st : fold_state)
    (outcomes : list (result (option BackupStatusResponse)))
    : result fold_state :=
  match outcomes with
  | [] => Ok st
  | o :: rest => v ← o; st' ← absorb st v; pure_fold st' rest
  end.

(** Two stores hold the same records up to the two default flags. *)
Definition same_records (h h' : gmap ref dict) : Prop :=
  ∀ l, with_defaults <$> h !! l = with_defaults <$> h' !! l.

(** All four keys of the count mapping are there. *)
Definition complete (c : counts) : Prop := ∀ key, is_Some (c !! key).

(** Overall status and counts of a result, without the detail text. *)
Definition summary (r : result (BackupStatus * string * counts))
    : option (BackupStatus * counts) :=
  match r with
  | Ok (s, _, c) => Some (s, c)
  | Raise _ => None
  end.

Definition state_summary (r : result fold_state)
    : option (BackupStatus * counts) :=
  match r with
  | Ok st => Some (global_status st, global_count st)
  | Raise _ => None
  end.

(** Two loop states with the same status and counts. *)
Definition alike (st st' : fold_state) : Prop :=
  global_status st = global_status st' ∧ global_count st = global_count st'.

(** The count mapping after one more client with verdict [s]. *)
Definition bumped (s : BackupStatus) (c : counts) : counts :=
  let c1 := <[KStatus s := default 0 (c !! KStatus s) + 1]> c in
  <[KAll := default 0 (c1 !! KAll) + 1]> c1.

(** The three per-status counters added up, and the ["all"] counter. *)
Definition status_total (c : counts) : Z :=
  default 0 (c !! KStatus OK) + default 0 (c !! KStatus WARNING)
  + default 0 (c !! KStatus CRITICAL).

Definition all_total (c : counts) : Z := default 0 (c !! KAll).

(** ** Read-only computations *)

(** The world [k] clock readings later. *)
Definition advance (k : nat) (w : world) : world :=
  {| heap := heap w; ticks := (ticks w + k)%nat; stdout := stdout w |}.

(** [m] only reads the record behind [l] and the clock, and what it
    returns is [r], whatever the clock says. *)
Definition reads {A} (l : ref) (d : dict) (m : py A) (r : result A) : Prop :=
  ∀ w, heap w !! l = Some d → ∃ k, m w = (r, advance k w).

(** ** Notions for the further properties *)

(** A time stamp [datetime.fromtimestamp] accepts. *)
Definition valid_stamp (o : option value) : bool :=
  match o with
  | Some v => match fromtimestamp v with Ok _ => true | Raise _ => false end
  | None => false
  end.

(** The record has the four fields and the two time stamps that
    [get_status] reads whatever their values are. *)
Definition readable (d : dict) : bool :=
  bool_decide (is_Some (d !! "file_ok"))
  && bool_decide (is_Some (d !! "image_ok"))
  && bool_decide (is_Some (d !! "online"))
  && bool_decide (is_Some (d !! "name"))
  && valid_stamp (d !! "lastbackup")
  && valid_stamp (d !! "lastbackup_image").

(** The keys [get_status] subscripts without a default, in the order
    of their first use, up to the first time stamp. *)
Definition required_keys : list string :=
  ["file_ok"; "image_ok"; "online"; "name"; "lastbackup"].

(** The running variables after the verdicts [rs] have been folded in,
    one after the other, into a state with a complete count mapping. *)
Fixpoint folded (st : fold_state) (rs : list BackupStatusResponse)
    : fold_state :=
  match rs with
  | [] => st
  | r :: rest =>
      folded {| global_status := merge (global_status st) (status r);
                global_details :=
                  if bool_decide (status r = OK) then global_details st
                  else global_details st +:+ error r +:+ newline;
                global_count := bumped (status r) (global_count st) |} rest
  end.

(** What [except Exception] catches. *)
Definition is_exception (e : exn) : bool :=
  match e with
  | SystemExit _ => false
  | _ => true
  end.

(** Every error of [r] is one that [except Exception] catches. *)
Definition catchable {A} (r : result A) : Prop :=
  ∀ e, r = Raise e → is_exception e = true.


(** A record without [file_ok], and a store that holds it at
    reference 5 beside the five sample clients. *)
Definition client_broken : dict := delete "file_ok" client_a.

Definition broken_world : world :=
  {| heap := <[5%nat := client_broken]> sample_heap; ticks := 0; stdout := [] |}.


(** The verdicts of the sample clients [a], [b] and [c] under
    [sample_args], and the world once the three have been evaluated. *)
Definition sample_verdicts : list BackupStatusResponse :=
  [ {| status := OK; error := "" |};
    {| status := WARNING; error := "<b>HostName: b</b>, Online: False" |};
    {| status := CRITICAL;
       error := "<b>HostName: c</b>, Online: True, "
                +:+ "<b>Status Filebackup: No recent backup</b>" |} ].

Definition sample_world_after : world :=
  {| heap := <[2%nat := with_defaults client_c]>
               (<[1%nat := with_defaults client_b]>
                  (<[0%nat := with_defaults client_a]> sample_heap));
     ticks := 3; stdout := [] |}.


(** * Properties *)

(** ** Sequencing *)

Lemma bind_run {A B} (m : py A) (f : A → py B) (w : world) :
  (m ≫= f) w =
  match m w with
  | (Ok a, w') => f a w'
  | (Raise e, w') => (Raise e, w')
  end.
Proof. reflexivity. Qed.

Lemma advance_0 w : advance 0 w = w.
Proof. destruct w; unfold advance; simpl. by rewrite Nat.add_0_r. Qed.

Lemma advance_advance j k w : advance k (advance j w) = advance (j + k) w.
Proof. unfold advance; simpl. by rewrite Nat.add_assoc. Qed.

Lemma set_heap_id w : set_heap (heap w) w = w.
Proof. by destruct w. Qed.

Lemma reads_ret {A} l d (a : A) : reads l d (mret a) (Ok a).
Proof. intros w _. exists 0%nat. by rewrite advance_0. Qed.

Lemma reads_lift {A} l d (r : result A) : reads l d (lift r) r.
Proof. intros w _. exists 0%nat. by rewrite advance_0. Qed.

Lemma reads_getitem l d key : reads l d (getitem l key) (lookup_item d key).
Proof.
  intros w Hw. exists 0%nat. rewrite advance_0.
  unfold getitem, lookup_item. rewrite Hw. by destruct (d !! key).
Qed.

Lemma reads_bind {A B} l d (m : py A) (f : A → py B) r g :
  reads l d m r → (∀ a, reads l d (f a) (g a)) →
  reads l d (m ≫= f) (r ≫= g).
Proof.
  intros Hm Hf w Hw. destruct (Hm w Hw) as [j Ej].
  rewrite bind_run, Ej. destruct r as [a|e]; simpl.
  - destruct (Hf a (advance j w) Hw) as [k Ek].
    exists (j + k)%nat. by rewrite Ek, advance_advance.
  - by exists j.
Qed.

(** ** The staleness test *)

Lemma seconds_range a b : 0 ≤ seconds (datetime_sub a b) < 86400.
Proof. unfold datetime_sub; simpl. apply Z.mod_pos_bound. lia. Qed.

Lemma diff_hours_range a b : 0 ≤ seconds (datetime_sub a b) / 3600 ≤ 23.
Proof.
  pose proof (seconds_range a b) as [Hlo Hhi]. split.
  - apply Z.div_pos; lia.
  - assert (seconds (datetime_sub a b) / 3600 < 24); [|lia].
    apply Z.div_lt_upper_bound; lia.
Qed.

(** Against a limit other than zero the test does not look at the
    clock: it fails for every positive limit. *)
Lemma old_test_clock_free a b m :
  m ≠ 0 → Z.ltb (24 * m) (seconds (datetime_sub a b) / 3600) = Z.ltb m 0.
Proof.
  intros Hm. pose proof (diff_hours_range a b).
  destruct (Z.ltb_spec m 0), (Z.ltb_spec (24 * m) (seconds (datetime_sub a b) / 3600));
    try reflexivity; lia.
Qed.

Lemma reads_is_old l d disabled_key time_key m :
  m ≠ 0 →
  reads l d (is_old disabled_key time_key l m)
    (disabled ← lookup_item d disabled_key;
     stamp ← lookup_item d time_key;
     _ ← fromtimestamp stamp;
     Ok (Z.ltb m 0 && negb (truthy disabled))).
Proof.
  intros Hm. unfold is_old.
  apply reads_bind; [apply reads_getitem | intros disabled].
  apply reads_bind; [apply reads_getitem | intros stamp].
  apply reads_bind; [apply reads_lift | intros last_backup].
  intros w _. exists 1%nat.
  rewrite bind_run. unfold datetime_now, mret, py_ret, advance. cbv beta iota.
  rewrite old_test_clock_free by done.
  by rewrite Nat.add_1_r.
Qed.

Lemma reads_old_if_configured l d disabled_key time_key max_days :
  reads l d (old_if_configured (is_old disabled_key time_key) l max_days)
    (old_of d disabled_key time_key max_days).
Proof.
  unfold old_if_configured, old_of. destruct max_days as [m|]; [|apply reads_ret].
  destruct (truthy_opt (Some m)) eqn:Hm; [|apply reads_ret].
  apply reads_is_old. simpl in Hm. intros ->. discriminate.
Qed.

Lemma reads_backup_flags l d ok_key disabled_key :
  reads l d (backup_flags l ok_key disabled_key)
    (flags_of d ok_key disabled_key).
Proof.
  intros w Hw. exists 0%nat. rewrite advance_0.
  unfold backup_flags, flags_of, lookup_item.
  unfold mbind, py_bind, result_bind, getitem, mret, py_ret, result_ret.
  rewrite Hw.
  destruct (d !! ok_key) as [ok|] eqn:Hv; [|done].
  destruct (truthy ok) eqn:Hok.
  - by rewrite Hw, Hv, Hok.
  - rewrite Hw. destruct (d !! disabled_key) as [disabled|]; [|done].
    destruct (truthy disabled); cbv [negb]; [|done].
    by rewrite Hw, Hv, Hok.
Qed.

(** ** What [get_status] does to the world and what it returns *)

Lemma default_disabled_run l d key w :
  heap w !! l = Some d →
  default_disabled l key w
  = (Ok (), set_heap (<[l := with_default key d]> (heap w)) w).
Proof.
  intros Hw. unfold default_disabled, with_default. rewrite bind_run.
  unfold contains, setitem. rewrite Hw.
  destruct (bool_decide (is_Some (d !! key))).
  - unfold mret, py_ret. by rewrite (insert_id _ _ _ Hw), set_heap_id.
  - by rewrite Hw.
Qed.

Ltac reads_auto :=
  repeat first
    [ apply reads_ret | apply reads_lift | apply reads_getitem
    | apply reads_backup_flags | apply reads_old_if_configured
    | apply reads_bind; [| first [intros [? ?] | intros ?]] ].

Lemma read_client_run l d maxfiledays maximagedays w :
  heap w !! l = Some d →
  ∃ k, read_client l maxfiledays maximagedays w
       = (locals_of d maxfiledays maximagedays,
          advance k (set_heap (<[l := with_defaults d]> (heap w)) w)).
Proof.
  intros Hw. unfold read_client.
  rewrite bind_run, (default_disabled_run _ _ _ _ Hw).
  set (w1 := set_heap _ w).
  assert (H1 : heap w1 !! l = Some (with_default "file_disabled" d))
    by apply lookup_insert_eq.
  cbv beta iota. rewrite bind_run, (default_disabled_run _ _ _ _ H1).
  assert (set_heap (<[l := with_default "image_disabled"
                            (with_default "file_disabled" d)]> (heap w1)) w1
          = set_heap (<[l := with_defaults d]> (heap w)) w) as ->.
  { unfold w1, set_heap; simpl. by rewrite insert_insert_eq. }
  cbv beta iota.
  match goal with
  | |- ∃ k, ?m _ = _ =>
      assert (Hr : reads l (with_defaults d) m
                     (locals_of d maxfiledays maximagedays))
  end.
  { unfold locals_of, is_file_old, is_image_old. cbv zeta. reads_auto. }
  apply Hr. apply lookup_insert_eq.
Qed.

(** [get_status] returns what [response_of] computes from the record,
    leaves the record with its two flags filled in, and touches
    nothing else but the clock. *)
Lemma get_status_run l d maxfiledays maximagedays w :
  heap w !! l = Some d →
  ∃ k, get_status l maxfiledays maximagedays w
       = (response_of d maxfiledays maximagedays,
          advance k (set_heap (<[l := with_defaults d]> (heap w)) w)).
Proof.
  intros Hw.
  destruct (read_client_run l d maxfiledays maximagedays w Hw) as [k Ek].
  exists k. unfold get_status, response_of. rewrite bind_run, Ek.
  by destruct (locals_of d maxfiledays maximagedays).
Qed.

Lemma get_status_dangling l maxfiledays maximagedays w :
  heap w !! l = None →
  get_status l maxfiledays maximagedays w = (Raise TypeError, w).
Proof.
  intros Hw. unfold get_status, read_client, default_disabled.
  rewrite !bind_run. unfold contains. by rewrite Hw.
Qed.

(** ** The two default flags *)

Lemma with_default_lookup key (d : dict) k :
  with_default key d !! k
  = match d !! k with
    | Some v => Some v
    | None => if decide (k = key) then Some (VBool false) else None
    end.
Proof.
  unfold with_default. destruct (decide (k = key)) as [->|Hne].
  - case_bool_decide as H.
    + destruct H as [v Hv]. by rewrite Hv.
    + rewrite lookup_insert_eq. destruct (d !! key) eqn:E; [|done].
      exfalso. apply H. eauto.
  - case_bool_decide; [by destruct (d !! k)|].
    rewrite lookup_insert_ne by done. by destruct (d !! k).
Qed.

Lemma with_defaults_lookup (d : dict) k :
  with_defaults d !! k
  = match d !! k with
    | Some v => Some v
    | None =>
        if decide (k = "file_disabled" ∨ k = "image_disabled")
        then Some (VBool false) else None
    end.
Proof.
  unfold with_defaults. rewrite !with_default_lookup.
  destruct (d !! k); [done|].
  destruct (decide (k = "file_disabled")) as [->|Hfile].
  - by rewrite decide_True by by left.
  - destruct (decide (k = "image_disabled")) as [->|Himage].
    + by rewrite decide_True by by right.
    + rewrite decide_False; [done|]. by intros [?|?].
Qed.

Lemma with_defaults_idemp (d : dict) :
  with_defaults (with_defaults d) = with_defaults d.
Proof.
  apply map_eq. intros k. rewrite !with_defaults_lookup.
  destruct (d !! k); [done|]. by case_decide.
Qed.

Lemma with_defaults_present (d : dict) :
  is_Some (d !! "file_disabled") → is_Some (d !! "image_disabled") →
  with_defaults d = d.
Proof.
  intros [v Hv] [v' Hv']. apply map_eq. intros k.
  rewrite with_defaults_lookup. destruct (d !! k) eqn:E; [done|].
  case_decide as H; [|done]. destruct H as [->| ->]; congruence.
Qed.

Lemma response_of_with_defaults d maxfiledays maximagedays :
  response_of (with_defaults d) maxfiledays maximagedays
  = response_of d maxfiledays maximagedays.
Proof. unfold response_of, locals_of. by rewrite with_defaults_idemp. Qed.

Lemma with_defaults_name (d : dict) : with_defaults d !! "name" = d !! "name".
Proof.
  rewrite with_defaults_lookup. destruct (d !! "name"); [done|].
  case_decide as H; [|done]. by destruct H.
Qed.

(** ** Well-formed records *)

Lemma well_formed_fields d :
  well_formed d = true →
  ∃ name online file_ok image_ok t_file t_image,
    d !! "name" = Some (VStr name)
    ∧ d !! "online" = Some (VBool online)
    ∧ d !! "file_ok" = Some (VBool file_ok)
    ∧ d !! "image_ok" = Some (VBool image_ok)
    ∧ d !! "lastbackup" = Some (VInt t_file)
    ∧ fromtimestamp (VInt t_file) = Ok (stamp_field d "lastbackup")
    ∧ d !! "lastbackup_image" = Some (VInt t_image)
    ∧ fromtimestamp (VInt t_image) = Ok (stamp_field d "lastbackup_image")
    ∧ is_optional_bool (d !! "file_disabled") = true
    ∧ is_optional_bool (d !! "image_disabled") = true.
Proof.
  unfold well_formed. rewrite !andb_true_iff.
  intros [[[[[[[Hn Ho] Hf] Hi] Htf] Hti] Hfd] Hid].
  destruct (d !! "name") as [[| | |name]|]; try discriminate.
  destruct (d !! "online") as [[|online| |]|]; try discriminate.
  destruct (d !! "file_ok") as [[|file_ok| |]|]; try discriminate.
  destruct (d !! "image_ok") as [[|image_ok| |]|]; try discriminate.
  unfold stamp_field.
  destruct (d !! "lastbackup") as [[| |t_file|]|]; try discriminate.
  destruct (d !! "lastbackup_image") as [[| |t_image|]|]; try discriminate.
  exists name, online, file_ok, image_ok, t_file, t_image.
  cbn [is_timestamp] in Htf, Hti.
  destruct (fromtimestamp (VInt t_file)); [|discriminate].
  destruct (fromtimestamp (VInt t_image)); [|discriminate].
  by repeat split.
Qed.

Lemma with_defaults_flag (d : dict) key :
  key = "file_disabled" ∨ key = "image_disabled" →
  ∃ v, with_defaults d !! key = Some v ∧ truthy v = flag d key.
Proof.
  intros Hkey. rewrite with_defaults_lookup. unfold flag.
  destruct (d !! key) as [v|]; [by exists v|].
  rewrite decide_True by done. by exists (VBool false).
Qed.

Lemma flags_of_bool (d : dict) ok_key disabled_key ok disabled :
  d !! ok_key = Some (VBool ok) → d !! disabled_key = Some disabled →
  flags_of d ok_key disabled_key
  = Ok (negb ok && negb (truthy disabled), status_text ok (truthy disabled)).
Proof.
  intros Hok Hdis. unfold flags_of, lookup_item, status_text.
  rewrite Hok, Hdis.
  destruct ok; simpl; by destruct (truthy disabled).
Qed.

Lemma old_of_run (d : dict) disabled_key time_key max_days disabled stamp t :
  d !! disabled_key = Some disabled → d !! time_key = Some stamp →
  fromtimestamp stamp = Ok t →
  old_of d disabled_key time_key max_days
  = Ok (old_flag max_days (truthy disabled)).
Proof.
  intros Hdis Hstamp Ht. unfold old_of, old_flag, lookup_item.
  destruct max_days as [m|]; [|done]. rewrite Hdis, Hstamp. simpl.
  rewrite Ht. destruct (Z.eqb_spec m 0) as [->|]; by simpl.
Qed.

(** The local variables [get_status] works with on a well-formed
    record. *)
Lemma locals_of_well_formed d maxfiledays maximagedays :
  well_formed d = true →
  locals_of d maxfiledays maximagedays
  = Ok (expected_locals d maxfiledays maximagedays).
Proof.
  intros Hwf.
  destruct (well_formed_fields d Hwf)
    as (name & online & file_ok & image_ok & t_file & t_image
        & Hn & Ho & Hf & Hi & Htf & Hrf & Hti & Hri & _ & _).
  destruct (with_defaults_flag d "file_disabled") as (fd & Hfd & Tfd); [by left|].
  destruct (with_defaults_flag d "image_disabled") as (imd & Himd & Timd); [by right|].
  assert (Hother : ∀ k v, d !! k = Some v → with_defaults d !! k = Some v).
  { intros k v Hk. by rewrite with_defaults_lookup, Hk. }
  unfold locals_of. cbv zeta.
  rewrite (flags_of_bool _ _ _ _ _ (Hother _ _ Hf) Hfd).
  rewrite (flags_of_bool _ _ _ _ _ (Hother _ _ Hi) Himd).
  rewrite (old_of_run _ _ _ maxfiledays _ _ _ Hfd (Hother _ _ Htf) Hrf).
  rewrite (old_of_run _ _ _ maximagedays _ _ _ Himd (Hother _ _ Hti) Hri).
  unfold lookup_item.
  rewrite (Hother _ _ Ho), (Hother _ _ Hn), (Hother _ _ Htf), (Hother _ _ Hti).
  cbn [mbind result_bind]. rewrite Hrf, Hri. cbn [mbind result_bind].
  assert (Efo : flag d "file_ok" = file_ok) by (unfold flag; by rewrite Hf).
  assert (Eio : flag d "image_ok" = image_ok) by (unfold flag; by rewrite Hi).
  unfold expected_locals, value_field.
  by rewrite Efo, Eio, Tfd, Timd, Ho, Hn.
Qed.

Lemma get_status_well_formed l d maxfiledays maximagedays w :
  heap w !! l = Some d → well_formed d = true →
  ∃ w', read_client l maxfiledays maximagedays w
        = (Ok (expected_locals d maxfiledays maximagedays), w')
      ∧ get_status l maxfiledays maximagedays w
        = (Ok (verdict (expected_locals d maxfiledays maximagedays)), w')
      ∧ heap w' = <[l := with_defaults d]> (heap w)
      ∧ stdout w' = stdout w.
Proof.
  intros Hw Hwf.
  destruct (read_client_run l d maxfiledays maximagedays w Hw) as [k Ek].
  rewrite (locals_of_well_formed _ _ _ Hwf) in Ek.
  eexists. split; [exact Ek|]. split; [|done].
  unfold get_status. by rewrite bind_run, Ek.
Qed.

(** ** Per-client evaluation *)

(** The staleness test against a limit of one day or more answers
    [False] whatever the age of the backup. *)
Lemma is_old_never_beyond_a_day l d disabled_key time_key disabled stamp t m w :
  heap w !! l = Some d →
  d !! disabled_key = Some disabled → d !! time_key = Some stamp →
  fromtimestamp stamp = Ok t → 1 ≤ m →
  ∃ k, is_old disabled_key time_key l m w = (Ok false, advance k w).
Proof.
  intros Hw Hdis Hstamp Ht Hm.
  destruct (reads_is_old l d disabled_key time_key m ltac:(lia) w Hw) as [k Ek].
  exists k. rewrite Ek. unfold lookup_item. rewrite Hdis, Hstamp. simpl.
  rewrite Ht. simpl. by destruct (Z.ltb_spec m 0); [lia|].
Qed.

Lemma check_positive_accepts ivalue m :
  check_positive ivalue = Ok m → m = ivalue ∧ 1 ≤ m.
Proof.
  unfold check_positive. destruct (Z.leb_spec ivalue 0); [done|].
  intros [= <-]. split; [done|lia].
Qed.

(** For every limit the command line accepts, the staleness test of a
    record that has the fields it reads answers [False]. *)
Lemma is_old_never_for_accepted_limit l d disabled_key time_key disabled stamp t
    ivalue m w :
  heap w !! l = Some d →
  d !! disabled_key = Some disabled → d !! time_key = Some stamp →
  fromtimestamp stamp = Ok t → check_positive ivalue = Ok m →
  ∃ k, is_old disabled_key time_key l m w = (Ok false, advance k w).
Proof.
  intros Hw Hdis Hstamp Ht [_ Hm]%check_positive_accepts.
  by eapply is_old_never_beyond_a_day.
Qed.

(** So with limits that are unset or accepted by the command line,
    [get_status] never finds a backup old. *)
Lemma old_flag_accepted max_days disabled :
  (∀ m, max_days = Some m → 1 ≤ m) → old_flag max_days disabled = false.
Proof.
  intros Hpos. destruct max_days as [m|]; cbn [old_flag]; [|done].
  specialize (Hpos m eq_refl). by destruct (Z.ltb_spec m 0); [lia|].
Qed.

Lemma get_status_never_old l d maxfiledays maximagedays w :
  heap w !! l = Some d → well_formed d = true →
  (∀ m, maxfiledays = Some m → 1 ≤ m) →
  (∀ m, maximagedays = Some m → 1 ≤ m) →
  ∃ v w', read_client l maxfiledays maximagedays w = (Ok v, w')
    ∧ get_status l maxfiledays maximagedays w = (Ok (verdict v), w')
    ∧ file_old v = false ∧ image_old v = false.
Proof.
  intros Hw Hwf Hfile Himage.
  destruct (get_status_well_formed l d maxfiledays maximagedays w Hw Hwf)
    as (w' & Eread & Estatus & _).
  exists (expected_locals d maxfiledays maximagedays), w'.
  split; [done|]. split; [done|]. cbn [expected_locals file_old image_old].
  by rewrite !old_flag_accepted.
Qed.

(** The verdict table of lines 86-95 and the shape of the detail. *)
Lemma verdict_table v :
  match truthy (client_online v),
        file_failed v || image_failed v || (file_old v || image_old v) with
  | true, false => verdict v = {| status := OK; error := "" |}
  | true, true => status (verdict v) = CRITICAL
  | false, false =>
      status (verdict v) = WARNING
      ∧ error (verdict v) ≠ ""
      ∧ contains_text (error (verdict v)) (py_str (client_name v))
  | false, true => status (verdict v) = CRITICAL
  end.
Proof.
  destruct v as [ff fs imf ims online name lf li fo io].
  unfold verdict, client_status_of, client_details_of. simpl.
  destruct (truthy online), ff, imf, fo, io; simpl; try reflexivity.
  split; [reflexivity|]. split; [discriminate|].
  by exists "<b>HostName: ", ("</b>, Online: " +:+ py_str online).
Qed.

Lemma flag_insert_ne (d : dict) key key' v :
  key' ≠ key → flag (<[key' := v]> d) key = flag d key.
Proof. intros. unfold flag. by rewrite lookup_insert_ne. Qed.

Lemma value_field_insert_ne (d : dict) key key' v :
  key' ≠ key → value_field (<[key' := v]> d) key = value_field d key.
Proof. intros. unfold value_field. by rewrite lookup_insert_ne. Qed.

Lemma stamp_field_insert_ne (d : dict) key key' v :
  key' ≠ key → stamp_field (<[key' := v]> d) key = stamp_field d key.
Proof. intros. unfold stamp_field. by rewrite lookup_insert_ne. Qed.

Lemma old_flag_disabled max_days : old_flag max_days true = false.
Proof. destruct max_days; simpl; [apply andb_false_r|done]. Qed.

(** Rewriting one [ok] flag and one time stamp keeps a record
    well-formed. *)
Lemma well_formed_rewrite d ok_key time_key b t :
  (ok_key = "file_ok" ∧ time_key = "lastbackup")
  ∨ (ok_key = "image_ok" ∧ time_key = "lastbackup_image") →
  well_formed d = true →
  is_timestamp (Some (VInt t)) = true →
  well_formed (<[ok_key := VBool b]> (<[time_key := VInt t]> d)) = true.
Proof.
  intros Hkeys Hwf Ht. unfold well_formed in *.
  destruct Hkeys as [[-> ->]|[-> ->]];
    repeat first [ rewrite lookup_insert_eq
                 | rewrite lookup_insert_ne by done ];
    rewrite ?Ht; cbn [is_bool];
    repeat (apply andb_prop in Hwf as [Hwf ?]);
    repeat (apply andb_true_intro; split); done.
Qed.

(** With the file type disabled the verdict is the same for every
    [file_ok], every time of the last file backup and every limit on
    its age. *)
Lemma verdict_file_masked d b t m maxfiledays maximagedays :
  flag d "file_disabled" = true →
  verdict (expected_locals
             (<["file_ok" := VBool b]> (<["lastbackup" := VInt t]> d))
             m maximagedays)
  = verdict (expected_locals d maxfiledays maximagedays).
Proof.
  intros Hdis.
  unfold verdict, client_status_of, client_details_of, expected_locals.
  cbn [file_failed file_str image_failed image_str client_online client_name
       last_file_backup last_image_backup file_old image_old].
  rewrite !(flag_insert_ne _ "file_disabled"), !(flag_insert_ne _ "image_ok"),
    !(flag_insert_ne _ "image_disabled"), !value_field_insert_ne,
    !(stamp_field_insert_ne _ "lastbackup_image") by done.
  by rewrite Hdis, !old_flag_disabled, !andb_false_r.
Qed.

Lemma verdict_image_masked d b t m maxfiledays maximagedays :
  flag d "image_disabled" = true →
  verdict (expected_locals
             (<["image_ok" := VBool b]> (<["lastbackup_image" := VInt t]> d))
             maxfiledays m)
  = verdict (expected_locals d maxfiledays maximagedays).
Proof.
  intros Hdis.
  unfold verdict, client_status_of, client_details_of, expected_locals.
  cbn [file_failed file_str image_failed image_str client_online client_name
       last_file_backup last_image_backup file_old image_old].
  rewrite !(flag_insert_ne _ "file_disabled"), !(flag_insert_ne _ "file_ok"),
    !(flag_insert_ne _ "image_disabled"), !value_field_insert_ne,
    !(stamp_field_insert_ne _ "lastbackup") by done.
  by rewrite Hdis, !old_flag_disabled, !andb_false_r.
Qed.

(** C4: a backup type that is marked disabled is neither failed nor
    old for [get_status], and the answer of [get_status] is the same
    whatever the type's [ok] flag, the time of its last backup and
    the limit on its age are. *)
Theorem disabled_type_is_masked l d maxfiledays maximagedays w :
  heap w !! l = Some d → well_formed d = true →
  ∃ v w',
    read_client l maxfiledays maximagedays w = (Ok v, w')
    ∧ get_status l maxfiledays maximagedays w = (Ok (verdict v), w')
    ∧ (flag d "file_disabled" = true →
       file_failed v = false ∧ file_old v = false
       ∧ ∀ b t m,
           is_timestamp (Some (VInt t)) = true →
           fst (get_status l m maximagedays
                  (set_heap (<[l := <["file_ok" := VBool b]>
                                       (<["lastbackup" := VInt t]> d)]>
                               (heap w)) w))
           = Ok (verdict v))
    ∧ (flag d "image_disabled" = true →
       image_failed v = false ∧ image_old v = false
       ∧ ∀ b t m,
           is_timestamp (Some (VInt t)) = true →
           fst (get_status l maxfiledays m
                  (set_heap (<[l := <["image_ok" := VBool b]>
                                       (<["lastbackup_image" := VInt t]> d)]>
                               (heap w)) w))
           = Ok (verdict v)).
Proof.
  intros Hw Hwf.
  destruct (get_status_well_formed l d maxfiledays maximagedays w Hw Hwf)
    as (w' & Eread & Estatus & _).
  exists (expected_locals d maxfiledays maximagedays), w'.
  split; [done|]. split; [done|]. split; intros Hdis.
  - cbn [expected_locals file_failed file_old].
    rewrite Hdis, old_flag_disabled, andb_false_r.
    split; [done|]. split; [done|]. intros b t m Ht.
    set (d' := <["file_ok" := VBool b]> (<["lastbackup" := VInt t]> d)).
    set (w2 := set_heap _ w).
    assert (Hw2 : heap w2 !! l = Some d') by apply lookup_insert_eq.
    assert (Hwf' : well_formed d' = true)
      by (apply well_formed_rewrite; [left| |]; done).
    destruct (get_status_well_formed l d' m maximagedays w2 Hw2 Hwf')
      as (w3 & _ & -> & _).
    cbn [fst]. f_equal. by apply verdict_file_masked.
  - cbn [expected_locals image_failed image_old].
    rewrite Hdis, old_flag_disabled, andb_false_r.
    split; [done|]. split; [done|]. intros b t m Ht.
    set (d' := <["image_ok" := VBool b]> (<["lastbackup_image" := VInt t]> d)).
    set (w2 := set_heap _ w).
    assert (Hw2 : heap w2 !! l = Some d') by apply lookup_insert_eq.
    assert (Hwf' : well_formed d' = true)
      by (apply well_formed_rewrite; [right| |]; done).
    destruct (get_status_well_formed l d' maxfiledays m w2 Hw2 Hwf')
      as (w3 & _ & -> & _).
    cbn [fst]. f_equal. by apply verdict_image_masked.
Qed.

(** C7, as the code has it: when [get_status] returns, every field
    the record had is still there with its value, the two flags
    [file_disabled] and [image_disabled] have been added with value
    [False] where they were absent, no other record has changed, and
    a record that had both flags is unchanged. *)
Theorem get_status_fills_in_flags l d maxfiledays maximagedays w r w' :
  heap w !! l = Some d →
  get_status l maxfiledays maximagedays w = (Ok r, w') →
  ∃ d',
    heap w' = <[l := d']> (heap w)
    ∧ (∀ key v, d !! key = Some v → d' !! key = Some v)
    ∧ (∀ key, d !! key = None →
         d' !! key = if decide (key = "file_disabled" ∨ key = "image_disabled")
                     then Some (VBool false) else None)
    ∧ (is_Some (d !! "file_disabled") → is_Some (d !! "image_disabled") →
       heap w' = heap w).
Proof.
  intros Hw Hrun.
  destruct (get_status_run l d maxfiledays maximagedays w Hw) as [k Ek].
  rewrite Ek in Hrun. injection Hrun as _ <-.
  exists (with_defaults d). cbn [advance set_heap heap].
  split; [done|]. split; [|split].
  - intros key v Hkey. by rewrite with_defaults_lookup, Hkey.
  - intros key Hkey. by rewrite with_defaults_lookup, Hkey.
  - intros Hf Hi. rewrite with_defaults_present by done. by apply insert_id.
Qed.

(** ** The aggregation loop *)

Lemma increment_run key c w : increment key c w = (counted key c, w).
Proof. unfold increment, counted. by destruct (c !! key). Qed.

Lemma same_records_refl h : same_records h h.
Proof. by intros l. Qed.

Lemma same_records_trans h1 h2 h3 :
  same_records h1 h2 → same_records h2 h3 → same_records h1 h3.
Proof. intros H12 H23 l. by rewrite H12. Qed.

Lemma same_records_touch (h : gmap ref dict) l d :
  h !! l = Some d → same_records h (<[l := with_defaults d]> h).
Proof.
  intros Hl l'. destruct (decide (l' = l)) as [->|Hne].
  - rewrite lookup_insert_eq, Hl. simpl. by rewrite with_defaults_idemp.
  - by rewrite lookup_insert_ne.
Qed.

Lemma record_outcome_with_defaults regex args d :
  record_outcome regex args (with_defaults d) = record_outcome regex args d.
Proof.
  unfold record_outcome, lookup_item.
  by rewrite with_defaults_name, response_of_with_defaults.
Qed.

Lemma outcome_at_same regex args h h' l :
  same_records h h' → outcome_at regex args h l = outcome_at regex args h' l.
Proof.
  intros Hsame. specialize (Hsame l). unfold outcome_at.
  destruct (h !! l) as [d|], (h' !! l) as [d'|]; simpl in Hsame; try done.
  injection Hsame as Hsame.
  by rewrite <- (record_outcome_with_defaults _ _ d), Hsame,
    record_outcome_with_defaults.
Qed.

(** One turn of the loop: its effect on the running variables is
    that of [absorb] on the outcome for the record; the records stay
    what they were up to the default flags. *)
Lemma visit_run regex args st l w :
  ∃ w', visit regex args st l w
        = (outcome_at regex args (heap w) l ≫= absorb st, w')
      ∧ same_records (heap w) (heap w')
      ∧ stdout w' = stdout w.
Proof.
  unfold visit, outcome_at. rewrite bind_run. unfold getitem.
  destruct (heap w !! l) as [d|] eqn:Hw;
    [|exists w; by auto using same_records_refl].
  unfold record_outcome, lookup_item.
  destruct (d !! "name") as [name|] eqn:Hn;
    [|exists w; by auto using same_records_refl].
  rewrite bind_run. unfold lift. cbn [mbind result_bind].
  destruct (fullmatch_value regex name) as [[|]|e];
    try (exists w; by auto using same_records_refl).
  destruct (get_status_run l d (maxfiledays args) (maximagedays args) w Hw)
    as [k Ek].
  rewrite bind_run, Ek.
  exists (advance k (set_heap (<[l := with_defaults d]> (heap w)) w)).
  split; [|split; [|done]].
  - cbn [mbind result_bind].
    destruct (response_of d (maxfiledays args) (maximagedays args)) as [r|e];
      [|done].
    cbn [mbind result_bind absorb]. unfold settle.
    rewrite bind_run, increment_run.
    destruct (counted (KStatus (status r)) (global_count st)) as [c1|e1];
      [|done].
    cbn [mbind result_bind]. rewrite bind_run, increment_run.
    destruct (counted KAll c1) as [c2|e2]; [|done].
    cbn [mbind result_bind].
    by destruct (bool_decide (status r = OK)),
      (bool_decide (status r = WARNING) && bool_decide (global_status st ≠ CRITICAL)).
  - cbn [advance set_heap heap]. by apply same_records_touch.
Qed.

Lemma for_each_visit_run regex args clients st w :
  ∃ w', for_each (visit regex args) st clients w
        = (pure_fold st (map (outcome_at regex args (heap w)) clients), w')
      ∧ same_records (heap w) (heap w')
      ∧ stdout w' = stdout w.
Proof.
  revert st w. induction clients as [|l clients IH]; intros st w.
  - exists w. by auto using same_records_refl.
  - destruct (visit_run regex args st l w) as (w1 & E1 & Hsame1 & Hout1).
    cbn [for_each map pure_fold]. rewrite bind_run, E1. clear E1.
    destruct (outcome_at regex args (heap w) l) as [o|e];
      cbn [mbind result_bind]; [|exists w1; by auto].
    destruct (absorb st o) as [st1|e];
      cbn [mbind result_bind]; [|exists w1; by auto].
    destruct (IH st1 w1) as (w2 & E2 & Hsame2 & Hout2).
    exists w2. rewrite E2. split; [|split].
    + do 2 f_equal. apply map_ext. intros l'. symmetry.
      by apply outcome_at_same.
    + by eapply same_records_trans.
    + congruence.
Qed.

(** ** One verdict folded in *)

Lemma complete_initial : complete (global_count initial_state).
Proof. intros [[]|]; by eexists. Qed.

Lemma complete_insert (c : counts) key n : complete c → complete (<[key := n]> c).
Proof.
  intros Hc key'. destruct (decide (key = key')) as [->|Hne].
  - rewrite lookup_insert_eq. by eexists.
  - rewrite lookup_insert_ne by done. apply Hc.
Qed.

Lemma complete_bumped s c : complete c → complete (bumped s c).
Proof. intros Hc. unfold bumped. by do 2 apply complete_insert. Qed.

Lemma counted_complete key c :
  complete c → counted key c = Ok (<[key := default 0 (c !! key) + 1]> c).
Proof. intros Hc. unfold counted. by destruct (Hc key) as [n ->]. Qed.

(** With a complete count mapping the verdict is always folded in:
    the status moves along the merge table, the detail of a verdict
    that is not OK is appended, the two counters go up by one. *)
Lemma settle_complete st r :
  complete (global_count st) →
  settle st r
  = Ok {| global_status := merge (global_status st) (status r);
          global_details :=
            if bool_decide (status r = OK) then global_details st
            else global_details st +:+ error r +:+ newline;
          global_count := bumped (status r) (global_count st) |}.
Proof.
  intros Hc. unfold settle.
  rewrite (counted_complete _ _ Hc). cbn [mbind result_bind].
  rewrite counted_complete by by apply complete_insert.
  cbn [mbind result_bind]. unfold bumped.
  by destruct (status r), (global_status st).
Qed.

Lemma absorb_complete st o :
  complete (global_count st) →
  ∃ st', absorb st o = Ok st' ∧ complete (global_count st').
Proof.
  intros Hc. destruct o as [r|]; cbn [absorb]; [|by eauto].
  rewrite settle_complete by done. eexists. split; [done|].
  by apply complete_bumped.
Qed.

(** Whatever the count mapping holds, a verdict that is folded in
    moves the status along the merge table. *)
Lemma settle_status st r st' :
  settle st r = Ok st' →
  global_status st' = merge (global_status st) (status r).
Proof.
  unfold settle.
  destruct (counted (KStatus (status r)) (global_count st)) as [c1|];
    cbn [mbind result_bind]; [|done].
  destruct (counted KAll c1) as [c2|]; cbn [mbind result_bind]; [|done].
  destruct (status r), (global_status st); cbn; by intros [= <-].
Qed.

Lemma merge_severity running new :
  enum_value running ≤ enum_value (merge running new).
Proof. by destruct running, new. Qed.

Lemma pure_fold_severity outcomes st st' :
  pure_fold st outcomes = Ok st' →
  enum_value (global_status st) ≤ enum_value (global_status st').
Proof.
  revert st. induction outcomes as [|o outcomes IH]; intros st.
  - by intros [= <-].
  - cbn [pure_fold]. destruct o as [[r|]|e]; cbn [mbind result_bind absorb];
      [|apply IH|done].
    destruct (settle st r) as [st1|] eqn:E1; cbn [mbind result_bind]; [|done].
    intros Hrest%IH. apply settle_status in E1. rewrite E1 in Hrest.
    pose proof (merge_severity (global_status st) (status r)). lia.
Qed.

(** C3: the overall status never goes down while the loop runs: from
    any point of the loop on, whatever clients follow, the status at
    the end is at least as severe as it was, and once it is CRITICAL
    it stays CRITICAL. *)
Theorem overall_status_never_decreases regex args clients st w st' w' :
  for_each (visit regex args) st clients w = (Ok st', w') →
  enum_value (global_status st) ≤ enum_value (global_status st')
  ∧ (global_status st = CRITICAL → global_status st' = CRITICAL).
Proof.
  intros Hrun.
  destruct (for_each_visit_run regex args clients st w) as (w1 & E & _).
  rewrite E in Hrun. injection Hrun as Hfold _.
  apply pure_fold_severity in Hfold. split; [done|].
  intros Hc. rewrite Hc in Hfold. by destruct (global_status st').
Qed.

(** ** Counting *)

Lemma initial_totals :
  status_total (global_count initial_state) = 0
  ∧ all_total (global_count initial_state) = 0.
Proof. split; reflexivity. Qed.

Lemma bumped_totals s c :
  status_total (bumped s c) = status_total c + 1
  ∧ all_total (bumped s c) = all_total c + 1.
Proof.
  unfold status_total, all_total, bumped.
  destruct s;
    repeat first [ rewrite lookup_insert_eq
                 | rewrite lookup_insert_ne by done ];
    cbn [default from_option id]; split; lia.
Qed.

Lemma outcome_matched regex args h l o :
  outcome_at regex args h l = Ok o →
  name_matches regex h l = match o with Some _ => true | None => false end.
Proof.
  unfold outcome_at, name_matches, record_outcome, lookup_item.
  destruct (h !! l) as [d|]; [|done].
  destruct (d !! "name") as [[| | |s]|]; cbn; try done.
  destruct (fullmatch regex s); cbn; [|by intros [= <-]].
  destruct (response_of d (maxfiledays args) (maximagedays args)); cbn;
    [by intros [= <-]|done].
Qed.

Lemma pure_fold_counts regex args h clients st st' :
  complete (global_count st) →
  pure_fold st (map (outcome_at regex args h) clients) = Ok st' →
  let k := Z.of_nat (length (List.filter (name_matches regex h) clients)) in
  complete (global_count st')
  ∧ status_total (global_count st') = status_total (global_count st) + k
  ∧ all_total (global_count st') = all_total (global_count st) + k.
Proof.
  revert st. induction clients as [|l clients IH]; intros st Hc.
  - intros [= <-]. cbn. split; [done|]. split; lia.
  - cbn [map pure_fold List.filter].
    destruct (outcome_at regex args h l) as [o|e] eqn:Eo;
      cbn [mbind result_bind]; [|done].
    rewrite (outcome_matched _ _ _ _ _ Eo).
    destruct o as [r|]; cbn [absorb mbind result_bind]; [|by apply IH].
    rewrite settle_complete by done. cbn [mbind result_bind].
    intros Hrest. apply IH in Hrest; [|by apply complete_bumped].
    cbn [global_count] in Hrest. destruct Hrest as (Hc' & Hs & Ha).
    destruct (bumped_totals (status r) (global_count st)) as [Hs1 Ha1].
    cbn [length]. split; [done|]. split; lia.
Qed.

Lemma outcome_well_formed regex args (h : gmap ref dict) l d :
  h !! l = Some d → well_formed d = true →
  ∃ o, outcome_at regex args h l = Ok o.
Proof.
  intros Hl Hwf. unfold outcome_at, record_outcome, response_of, lookup_item.
  rewrite Hl, (locals_of_well_formed _ _ _ Hwf).
  destruct (well_formed_fields d Hwf) as (name & ? & ? & ? & ? & ? & -> & _).
  cbn. destruct (fullmatch regex name); by eexists.
Qed.

Lemma pure_fold_total regex args h clients st :
  well_formed_fleet h clients → complete (global_count st) →
  ∃ st', pure_fold st (map (outcome_at regex args h) clients) = Ok st'.
Proof.
  revert st. induction clients as [|l clients IH]; intros st Hwf Hc.
  - by eexists.
  - destruct (Hwf l) as (d & Hl & Hd); [by left|].
    destruct (outcome_well_formed regex args h l d Hl Hd) as [o Eo].
    destruct (absorb_complete st o Hc) as (st1 & E1 & Hc1).
    cbn [map pure_fold]. rewrite Eo. cbn [mbind result_bind].
    rewrite E1. cbn [mbind result_bind]. apply IH; [|done].
    intros l' Hl'. apply Hwf. by right.
Qed.

Lemma get_global_status_run args clients pat regex w :
  re_compile pat = Some regex →
  ∃ w', get_global_status args clients pat w
        = (st ← pure_fold initial_state
                   (map (outcome_at regex args (heap w)) clients);
           Ok (global_status st, global_details st, global_count st), w')
      ∧ same_records (heap w) (heap w')
      ∧ stdout w' = stdout w.
Proof.
  intros Hre. unfold get_global_status. rewrite Hre, bind_run.
  unfold mret at 1, py_ret at 1. cbv beta iota. rewrite bind_run.
  destruct (for_each_visit_run regex args clients initial_state w)
    as (w' & E & Hsame & Hout).
  exists w'. rewrite E. split; [|done].
  by destruct (pure_fold initial_state _).
Qed.

(** A well-formed fleet and a pattern that compiles always give a
    result. *)
Lemma get_global_status_returns args clients pat w :
  is_Some (re_compile pat) → well_formed_fleet (heap w) clients →
  ∃ s det c w', get_global_status args clients pat w = (Ok (s, det, c), w').
Proof.
  intros [regex Hre] Hwf.
  destruct (get_global_status_run args clients pat regex w Hre) as (w' & E & _).
  destruct (pure_fold_total regex args (heap w) clients initial_state Hwf
              complete_initial) as [st Est].
  rewrite Est in E. by eauto.
Qed.

(** C10: when the aggregation has completed, the three per-status
    counts add up to the count under ["all"], and that is the number
    of input records whose name the pattern matches in full; for a
    well-formed fleet and a pattern that compiles it does complete. *)
Theorem counts_add_up args clients pat w :
  (∀ s det c w',
     get_global_status args clients pat w = (Ok (s, det, c), w') →
     ∃ regex n_ok n_warning n_critical,
       re_compile pat = Some regex
       ∧ c !! KStatus OK = Some n_ok
       ∧ c !! KStatus WARNING = Some n_warning
       ∧ c !! KStatus CRITICAL = Some n_critical
       ∧ c !! KAll = Some (n_ok + n_warning + n_critical)
       ∧ n_ok + n_warning + n_critical
         = Z.of_nat (length (List.filter (name_matches regex (heap w)) clients)))
  ∧ (is_Some (re_compile pat) → well_formed_fleet (heap w) clients →
     ∃ s det c w',
       get_global_status args clients pat w = (Ok (s, det, c), w')).
Proof.
  split; [|apply get_global_status_returns].
  intros s det c w' Hrun.
  destruct (re_compile pat) as [regex|] eqn:Hre.
  2: { unfold get_global_status in Hrun. by rewrite Hre in Hrun. }
  destruct (get_global_status_run args clients pat regex w Hre) as (w1 & E & _).
  rewrite E in Hrun. clear E.
  destruct (pure_fold initial_state _) as [st|] eqn:Efold; [|done].
  injection Hrun as <- <- <- <-.
  destruct (pure_fold_counts _ _ _ _ _ _ complete_initial Efold)
    as (Hc & Hs & Ha).
  destruct initial_totals as [Hs0 Ha0]. rewrite Hs0 in Hs. rewrite Ha0 in Ha.
  unfold status_total, all_total in Hs, Ha.
  destruct (Hc (KStatus OK)) as [n_ok Hok], (Hc (KStatus WARNING)) as [n_w Hwa],
    (Hc (KStatus CRITICAL)) as [n_c Hcr], (Hc KAll) as [n_all Hall].
  rewrite Hok, Hwa, Hcr in Hs. rewrite Hall in Ha. cbn in Hs, Ha.
  exists regex, n_ok, n_w, n_c.
  do 4 (split; [done|]). split.
  - rewrite Hall. f_equal. lia.
  - lia.
Qed.

(** ** Order of the input *)

Lemma merge_swap running a b :
  merge (merge running a) b = merge (merge running b) a.
Proof. by destruct running, a, b. Qed.

Lemma bumped_swap a b c : bumped a (bumped b c) = bumped b (bumped a c).
Proof.
  apply map_eq. intros key. unfold bumped.
  destruct a, b, key as [[]|];
    repeat first [ rewrite lookup_insert_eq
                 | rewrite lookup_insert_ne by done ];
    reflexivity.
Qed.

Lemma absorb_alike st st' o :
  complete (global_count st) → alike st st' →
  ∃ st1 st1', absorb st o = Ok st1 ∧ absorb st' o = Ok st1'
    ∧ complete (global_count st1) ∧ alike st1 st1'.
Proof.
  intros Hc [Hs Hcount]. destruct o as [r|]; cbn [absorb].
  - rewrite !settle_complete by (by rewrite <- ?Hcount).
    do 2 eexists. split; [done|]. split; [done|].
    split; [by apply complete_bumped|].
    split; cbn; by rewrite ?Hs, ?Hcount.
  - by exists st, st'.
Qed.

Lemma absorb_swap st x y :
  complete (global_count st) →
  ∃ st1 st2, (absorb st x ≫= λ s, absorb s y) = Ok st1
    ∧ (absorb st y ≫= λ s, absorb s x) = Ok st2
    ∧ complete (global_count st1) ∧ alike st1 st2.
Proof.
  intros Hc. destruct x as [rx|], y as [ry|]; cbn [absorb mbind result_bind];
    rewrite ?settle_complete by done; cbn [mbind result_bind];
    rewrite ?settle_complete by (by apply complete_bumped);
    do 2 eexists; (split; [done|]); (split; [done|]);
    cbn [global_count global_status];
    (split; [by repeat apply complete_bumped|]); split; cbn; try done.
  - apply merge_swap.
  - apply bumped_swap.
Qed.

Lemma pure_fold_alike outcomes st st' :
  complete (global_count st) → alike st st' →
  state_summary (pure_fold st outcomes) = state_summary (pure_fold st' outcomes).
Proof.
  revert st st'. induction outcomes as [|o outcomes IH]; intros st st' Hc Halike.
  - destruct Halike as [Hs Hcount]. cbn. by rewrite Hs, Hcount.
  - cbn [pure_fold]. destruct o as [o|e]; cbn [mbind result_bind]; [|done].
    destruct (absorb_alike st st' o Hc Halike)
      as (st1 & st1' & -> & -> & Hc1 & Halike1).
    cbn [mbind result_bind]. by apply IH.
Qed.

Lemma pure_fold_permutation outcomes outcomes' :
  outcomes ≡ₚ outcomes' →
  ∀ st, complete (global_count st) →
  state_summary (pure_fold st outcomes) = state_summary (pure_fold st outcomes').
Proof.
  induction 1 as [|o l l' Hperm IH|x y l|l1 l2 l3 H12 IH12 H23 IH23];
    intros st Hc.
  - done.
  - cbn [pure_fold]. destruct o as [o|e]; cbn [mbind result_bind]; [|done].
    destruct (absorb_complete st o Hc) as (st1 & -> & Hc1).
    cbn [mbind result_bind]. by apply IH.
  - cbn [pure_fold].
    destruct x as [x|ex], y as [y|ey]; cbn [mbind result_bind].
    + destruct (absorb_swap st y x Hc) as (st1 & st2 & E1 & E2 & Hc1 & Halike).
      destruct (absorb st y) as [sy|] eqn:Ey; cbn [mbind result_bind] in E1 |- *;
        [|done].
      destruct (absorb st x) as [sx|] eqn:Ex; cbn [mbind result_bind] in E2 |- *;
        [|done].
      rewrite E1, E2. cbn [mbind result_bind]. by apply pure_fold_alike.
    + by destruct (absorb_complete st x Hc) as (st1 & -> & _).
    + by destruct (absorb_complete st y Hc) as (st1 & -> & _).
    + done.
  - by rewrite IH12, IH23.
Qed.

(** C8: aggregating a permutation of the input gives the same overall
    status and the same counts, and fails exactly when aggregating
    the original does; the detail text is left out of the
    comparison. *)
Theorem aggregation_order_independent args clients clients' pat w :
  clients ≡ₚ clients' →
  summary (get_global_status args clients pat w).1
  = summary (get_global_status args clients' pat w).1.
Proof.
  intros Hperm. destruct (re_compile pat) as [regex|] eqn:Hre.
  2: { unfold get_global_status. by rewrite Hre. }
  destruct (get_global_status_run args clients pat regex w Hre) as (w1 & -> & _).
  destruct (get_global_status_run args clients' pat regex w Hre) as (w2 & -> & _).
  cbn [fst].
  pose proof (pure_fold_permutation _ _
    (Permutation_map (outcome_at regex args (heap w)) Hperm)
    initial_state complete_initial) as Hfold.
  destruct (pure_fold initial_state (map _ clients)) as [st|],
    (pure_fold initial_state (map _ clients')) as [st'|];
    cbn in Hfold |- *; congruence.
Qed.

(** ** Which records take part *)

Lemma getitem_world l key w : (getitem l key w).2 = w.
Proof.
  unfold getitem. destruct (heap w !! l) as [d|]; [|done].
  by destruct (d !! key).
Qed.

(** One turn of the loop, spelled out. *)
Lemma visit_step regex args st l w :
  visit regex args st l w
  = match (getitem l "name" w).1 with
    | Ok name =>
        match fullmatch_value regex name with
        | Ok true =>
            match get_status l (maxfiledays args) (maximagedays args) w with
            | (Ok response, w') => (settle st response, w')
            | (Raise e, w') => (Raise e, w')
            end
        | Ok false => (Ok st, w)
        | Raise e => (Raise e, w)
        end
    | Raise e => (Raise e, w)
    end.
Proof.
  unfold visit. rewrite bind_run.
  pose proof (getitem_world l "name" w) as Hw.
  destruct (getitem l "name" w) as [[name|e] w0]; cbn [fst snd] in *; subst w0;
    [|done].
  rewrite bind_run. unfold lift.
  destruct (fullmatch_value regex name) as [[|]|e]; [|done|done].
  rewrite bind_run.
  destruct (get_status l (maxfiledays args) (maximagedays args) w)
    as [[r|e] w']; [|done].
  unfold settle. rewrite bind_run, increment_run.
  destruct (counted (KStatus (status r)) (global_count st)) as [c1|e1];
    cbn [mbind result_bind]; [|done].
  rewrite bind_run, increment_run.
  destruct (counted KAll c1) as [c2|e2]; cbn [mbind result_bind]; [|done].
  by destruct (bool_decide (status r = OK)),
    (bool_decide (status r = WARNING) && bool_decide (global_status st ≠ CRITICAL)).
Qed.

(** The step of the specification for a client that takes part, when
    nothing is missing from the count mapping. *)
Lemma fold_client_step args st l w :
  complete (global_count st) →
  fold_client args st l w
  = match get_status l (maxfiledays args) (maximagedays args) w with
    | (Ok response, w') => (settle st response, w')
    | (Raise e, w') => (Raise e, w')
    end.
Proof.
  intros Hc. unfold fold_client. rewrite bind_run.
  destruct (get_status l (maxfiledays args) (maximagedays args) w)
    as [[r|e] w']; [|done].
  rewrite settle_complete by done.
  rewrite bind_run, increment_run, counted_complete by done.
  cbn [mbind result_bind].
  rewrite bind_run, increment_run, counted_complete
    by by apply complete_insert.
  reflexivity.
Qed.

Lemma settle_keeps_complete st r st' :
  complete (global_count st) → settle st r = Ok st' →
  complete (global_count st').
Proof.
  intros Hc. rewrite settle_complete by done. intros [= <-].
  by apply complete_bumped.
Qed.

Lemma get_status_same_records l maxfiledays maximagedays w res w' :
  get_status l maxfiledays maximagedays w = (res, w') →
  same_records (heap w) (heap w').
Proof.
  intros Hrun. destruct (heap w !! l) as [d|] eqn:Hw.
  - destruct (get_status_run l d maxfiledays maximagedays w Hw) as [k Ek].
    rewrite Ek in Hrun. injection Hrun as _ <-.
    cbn [advance set_heap heap]. by apply same_records_touch.
  - rewrite get_status_dangling in Hrun by done. injection Hrun as _ <-.
    apply same_records_refl.
Qed.

Lemma same_records_name (h h' : gmap ref dict) l d s :
  same_records h h' → h !! l = Some d → d !! "name" = Some (VStr s) →
  ∃ d', h' !! l = Some d' ∧ d' !! "name" = Some (VStr s).
Proof.
  intros Hsame Hl Hn. specialize (Hsame l). rewrite Hl in Hsame.
  destruct (h' !! l) as [d'|]; [|done]. injection Hsame as Hsame.
  exists d'. split; [done|].
  by rewrite <- with_defaults_name, <- Hsame, with_defaults_name.
Qed.

Lemma for_each_filter regex args h clients st w :
  complete (global_count st) →
  same_records h (heap w) → named_fleet h clients →
  for_each (visit regex args) st clients w
  = for_each (fold_client args) st
      (List.filter (name_matches regex h) clients) w.
Proof.
  revert st w. induction clients as [|l clients IH]; intros st w Hc Hsame Hnamed.
  - done.
  - destruct (Hnamed l) as (d0 & s & Hl0 & Hn0); [by left|].
    destruct (same_records_name _ _ _ _ _ Hsame Hl0 Hn0) as (d & Hl & Hn).
    assert (Hrest : named_fleet h clients).
    { intros l' Hl'. apply Hnamed. by right. }
    cbn [for_each List.filter]. rewrite bind_run, visit_step.
    unfold name_matches at 1. rewrite Hl0, Hn0.
    unfold getitem at 1. rewrite Hl, Hn. cbn [fst fullmatch_value].
    destruct (fullmatch regex s); [|by apply IH].
    cbn [for_each]. rewrite bind_run, fold_client_step by done.
    destruct (get_status l (maxfiledays args) (maximagedays args) w)
      as [[r|e] w'] eqn:Erun; [|done].
    destruct (settle st r) as [st1|e] eqn:Est; [|done].
    apply IH; [by eapply settle_keeps_complete| |done].
    eapply same_records_trans; [done|].
    by eapply get_status_same_records.
Qed.

Lemma filter_filter {A} (f : A → bool) (l : list A) :
  List.filter f (List.filter f l) = List.filter f l.
Proof.
  induction l as [|a l IH]; [done|]. cbn [List.filter].
  destruct (f a) eqn:Ea; [|done]. cbn [List.filter]. by rewrite Ea, IH.
Qed.

(** ** The detail text *)

Lemma append_empty_r (s : string) : s +:+ "" = s.
Proof.
  induction s as [|a s IH]; [done|].
  change (String a (s +:+ "") = String a s). by f_equal.
Qed.

Lemma append_assoc (s t u : string) : (s +:+ t) +:+ u = s +:+ t +:+ u.
Proof.
  induction s as [|a s IH]; [done|].
  change (String a ((s +:+ t) +:+ u) = String a (s +:+ t +:+ u)). by f_equal.
Qed.

Lemma verdicts_step regex args l clients w :
  verdicts regex args (l :: clients) w
  = match (getitem l "name" w).1 with
    | Ok name =>
        match fullmatch_value regex name with
        | Ok true =>
            match get_status l (maxfiledays args) (maximagedays args) w with
            | (Ok response, w') =>
                match verdicts regex args clients w' with
                | (Ok others, w'') => (Ok (response :: others), w'')
                | (Raise e, w'') => (Raise e, w'')
                end
            | (Raise e, w') => (Raise e, w')
            end
        | Ok false => verdicts regex args clients w
        | Raise e => (Raise e, w)
        end
    | Raise e => (Raise e, w)
    end.
Proof.
  cbn [verdicts]. rewrite bind_run.
  pose proof (getitem_world l "name" w) as Hw.
  destruct (getitem l "name" w) as [[name|e] w0]; cbn [fst snd] in *; subst w0;
    [|done].
  rewrite bind_run. unfold lift.
  destruct (fullmatch_value regex name) as [[|]|e]; [|done|done].
  rewrite bind_run.
  destruct (get_status l (maxfiledays args) (maximagedays args) w)
    as [[r|e] w']; [|done].
  rewrite bind_run.
  by destruct (verdicts regex args clients w') as [[rs|e] w''].
Qed.



(** ** The exit code *)

(** Lines 184-194 fail at the first [status[...]], before anything
    is printed, whatever the aggregation returned. *)
Lemma report_raises status details count w :
  report status details count w = (Raise TypeError, w).
Proof. by destruct status. Qed.

(** However the aggregation ends, the module prints the error and
    [UNKOWN] and exits with 3. *)
Lemma main_exits_unknown fetch args w clients w1 s details count w2 :
  fetch w = (Ok clients, w1) →
  get_global_status args clients (client args) w1 = (Ok (s, details, count), w2) →
  main fetch args w
  = (Raise (SystemExit 3),
     {| heap := heap w2; ticks := ticks w2;
        stdout := stdout w2 ++ ["Error Occured:  " +:+ exn_str TypeError]
                    ++ ["UNKOWN"] |}).
Proof.
  intros Hfetch Hrun. unfold main. rewrite bind_run.
  unfold try_except, try_body. rewrite bind_run, Hfetch. cbv zeta.
  rewrite bind_run, Hrun, report_raises.
  unfold print at 1. cbv beta iota. rewrite bind_run.
  unfold print, sys_exit, raise. cbn [heap ticks stdout].
  by rewrite <- app_assoc.
Qed.

(** ** The staleness test as a function *)

Lemma old_test_exact a b m :
  Z.ltb (24 * m) (seconds (datetime_sub a b) / 3600)
  = Z.ltb m 0 || (Z.eqb m 0 && Z.leb 3600 (seconds (datetime_sub a b))).
Proof.
  pose proof (seconds_range a b) as [Hlo Hhi].
  destruct (Z.eqb_spec m 0) as [->|Hm].
  - cbn [Z.ltb Z.compare orb andb Z.mul].
    destruct (Z.leb_spec 3600 (seconds (datetime_sub a b))) as [Hs|Hs].
    + apply Z.ltb_lt.
      assert (1 ≤ seconds (datetime_sub a b) / 3600); [|lia].
      apply Z.div_le_lower_bound; lia.
    + apply Z.ltb_ge. rewrite Z.div_small by lia. lia.
  - rewrite old_test_clock_free by done. by rewrite andb_false_l, orb_false_r.
Qed.

Lemma is_old_value disabled_key time_key l d disabled stamp t m w :
  heap w !! l = Some d →
  d !! disabled_key = Some disabled → d !! time_key = Some stamp →
  fromtimestamp stamp = Ok t →
  is_old disabled_key time_key l m w
  = (Ok ((Z.ltb m 0
          || (Z.eqb m 0
              && Z.leb 3600 (seconds (datetime_sub (clock (ticks w)) t))))
         && negb (truthy disabled)),
     {| heap := heap w; ticks := S (ticks w); stdout := stdout w |}).
Proof.
  intros Hw Hdis Hstamp Ht. unfold is_old.
  rewrite bind_run. unfold getitem at 1. rewrite Hw, Hdis.
  rewrite bind_run. unfold getitem at 1. rewrite Hw, Hstamp.
  rewrite bind_run. unfold lift. rewrite Ht.
  rewrite bind_run. unfold datetime_now, mret, py_ret. cbv beta iota.
  by rewrite old_test_exact.
Qed.

(** X1: on a record that has the flag and a valid time stamp,
    [is_file_old] and [is_image_old] read the clock once and answer:
    [False] for every limit of one day or more; [not disabled] for
    every negative limit; and for the limit 0, [not disabled] exactly
    when the part of the age below one day ([diff.seconds]) is an
    hour or more.  The number of whole days of the age plays no part. *)
Theorem is_old_exact disabled_key time_key l d disabled stamp t m w :
  heap w !! l = Some d →
  d !! disabled_key = Some disabled → d !! time_key = Some stamp →
  fromtimestamp stamp = Ok t →
  is_old disabled_key time_key l m w
  = (Ok ((Z.ltb m 0
          || (Z.eqb m 0
              && Z.leb 3600 (seconds (datetime_sub (clock (ticks w)) t))))
         && negb (truthy disabled)),
     {| heap := heap w; ticks := S (ticks w); stdout := stdout w |})
  ∧ (1 ≤ m → (is_old disabled_key time_key l m w).1 = Ok false)
  ∧ (m < 0 →
     (is_old disabled_key time_key l m w).1 = Ok (negb (truthy disabled))).
Proof.
  intros Hw Hdis Hstamp Ht.
  rewrite (is_old_value _ _ _ _ _ _ _ m _ Hw Hdis Hstamp Ht).
  split; [done|]. cbn [fst]. split; intros Hm.
  - destruct (Z.ltb_spec m 0); [lia|]. by destruct (Z.eqb_spec m 0); [lia|].
  - by destruct (Z.ltb_spec m 0); [|lia].
Qed.

Lemma seconds_whole_days a t k :
  seconds (datetime_sub a (t - k * 86400000000))
  = seconds (datetime_sub a t).
Proof.
  unfold datetime_sub. cbn [seconds].
  replace (a - (t - k * 86400000000))
    with (a - t + (k * 86400) * 1000000) by lia.
  rewrite Z.div_add by lia.
  by rewrite Z.mod_add by lia.
Qed.

(** X2: the answer of [is_file_old] and [is_image_old] is the same for
    two time stamps of the last backup whose wall-clock times, as
    [datetime.fromtimestamp] gives them, lie a whole number of days
    apart: the test sees the time of day of the last backup and not
    its date.  (Time stamps a multiple of 86400 seconds apart need not
    be such a pair: the offset of the local zone may differ between
    them.) *)
Theorem is_old_ignores_whole_days disabled_key time_key l d disabled
    stamp stamp' t k m w :
  heap w !! l = Some d →
  d !! disabled_key = Some disabled → d !! time_key = Some stamp →
  disabled_key ≠ time_key →
  fromtimestamp stamp = Ok t →
  fromtimestamp stamp' = Ok (t - k * 86400000000) →
  (is_old disabled_key time_key l m
     (set_heap (<[l := <[time_key := stamp']> d]> (heap w)) w)).1
  = (is_old disabled_key time_key l m w).1.
Proof.
  intros Hw Hdis Hstamp Hne Ht Ht'.
  rewrite (is_old_value _ _ _ d disabled stamp t m w) by done.
  rewrite (is_old_value _ _ _ (<[time_key := stamp']> d) disabled
             stamp' (t - k * 86400000000) m).
  - cbn [fst set_heap ticks]. by rewrite seconds_whole_days.
  - apply lookup_insert_eq.
  - by rewrite lookup_insert_ne.
  - apply lookup_insert_eq.
  - done.
Qed.

(** X3: [is_file_old] and [is_image_old] fail before they read the
    clock and leave the world as it is: with [KeyError] for the flag
    when the record has no [..._disabled] entry (as for a record that
    [get_status] has not been through), with [KeyError] for the time
    stamp when that is missing, and with the error of
    [datetime.fromtimestamp] when the time stamp is no valid one. *)
Theorem is_old_errors disabled_key time_key l d m w :
  heap w !! l = Some d →
  (d !! disabled_key = None →
   is_old disabled_key time_key l m w = (Raise (KeyError disabled_key), w))
  ∧ (is_Some (d !! disabled_key) → d !! time_key = None →
     is_old disabled_key time_key l m w = (Raise (KeyError time_key), w))
  ∧ (∀ stamp e,
       is_Some (d !! disabled_key) → d !! time_key = Some stamp →
       fromtimestamp stamp = Raise e →
       is_old disabled_key time_key l m w = (Raise e, w)).
Proof.
  intros Hw. unfold is_old. split; [|split].
  - intros Hdis. rewrite bind_run. unfold getitem. by rewrite Hw, Hdis.
  - intros [v Hdis] Hstamp. rewrite bind_run. unfold getitem at 1.
    rewrite Hw, Hdis. rewrite bind_run. unfold getitem. by rewrite Hw, Hstamp.
  - intros stamp e [v Hdis] Hstamp He. rewrite bind_run. unfold getitem at 1.
    rewrite Hw, Hdis. rewrite bind_run. unfold getitem at 1.
    rewrite Hw, Hstamp. rewrite bind_run. unfold lift. by rewrite He.
Qed.


(** ** [get_status] on every record *)

Lemma with_defaults_other (d : dict) key :
  key ≠ "file_disabled" → key ≠ "image_disabled" →
  with_defaults d !! key = d !! key.
Proof.
  intros Hfile Himage. rewrite with_defaults_lookup.
  destruct (d !! key); [done|]. rewrite decide_False; [done|].
  by intros [?|?].
Qed.

Lemma flags_of_present (d : dict) ok_key disabled_key disabled :
  d !! disabled_key = Some disabled →
  flags_of d ok_key disabled_key
  = match d !! ok_key with
    | Some ok =>
        Ok (negb (truthy ok) && negb (truthy disabled),
            status_text (truthy ok) (truthy disabled))
    | None => Raise (KeyError ok_key)
    end.
Proof.
  intros Hdis. unfold flags_of, lookup_item, status_text. rewrite Hdis.
  destruct (d !! ok_key) as [ok|]; [|done]. cbn [mbind result_bind].
  destruct (truthy ok); cbn; by destruct (truthy disabled).
Qed.

(** What [get_status] holds in its local variables, or the error it
    stops with, read off the record field by field. *)
Lemma locals_of_cases d maxfiledays maximagedays :
  locals_of d maxfiledays maximagedays
  = match d !! "file_ok" with
    | None => Raise (KeyError "file_ok")
    | Some file_ok =>
    match d !! "image_ok" with
    | None => Raise (KeyError "image_ok")
    | Some image_ok =>
    match d !! "online" with
    | None => Raise (KeyError "online")
    | Some online =>
    match d !! "name" with
    | None => Raise (KeyError "name")
    | Some name =>
    match d !! "lastbackup" with
    | None => Raise (KeyError "lastbackup")
    | Some stamp_file =>
    match fromtimestamp stamp_file with
    | Raise e => Raise e
    | Ok t_file =>
    match d !! "lastbackup_image" with
    | None => Raise (KeyError "lastbackup_image")
    | Some stamp_image =>
    match fromtimestamp stamp_image with
    | Raise e => Raise e
    | Ok t_image =>
        Ok {| file_failed :=
                negb (truthy file_ok) && negb (flag d "file_disabled");
              file_str :=
                status_text (truthy file_ok) (flag d "file_disabled");
              image_failed :=
                negb (truthy image_ok) && negb (flag d "image_disabled");
              image_str :=
                status_text (truthy image_ok) (flag d "image_disabled");
              client_online := online;
              client_name := name;
              last_file_backup := t_file;
              last_image_backup := t_image;
              file_old := old_flag maxfiledays (flag d "file_disabled");
              image_old := old_flag maximagedays (flag d "image_disabled") |}
    end end end end end end end end.
Proof.
  destruct (with_defaults_flag d "file_disabled") as (fd & Hfd & Tfd); [by left|].
  destruct (with_defaults_flag d "image_disabled") as (imd & Himd & Timd); [by right|].
  unfold locals_of. cbv zeta.
  rewrite (flags_of_present _ "file_ok" _ _ Hfd),
    (flags_of_present _ "image_ok" _ _ Himd).
  unfold lookup_item. rewrite !with_defaults_other by done.
  destruct (d !! "file_ok") as [file_ok|]; [|done].
  destruct (d !! "image_ok") as [image_ok|]; [|done].
  destruct (d !! "online") as [online|]; [|done].
  destruct (d !! "name") as [name|]; [|done].
  destruct (d !! "lastbackup") as [stamp_file|] eqn:Hsf; [|done].
  cbn [mbind result_bind].
  destruct (fromtimestamp stamp_file) as [t_file|e] eqn:Htf; [|done].
  destruct (d !! "lastbackup_image") as [stamp_image|] eqn:Hsi; [|done].
  cbn [mbind result_bind].
  destruct (fromtimestamp stamp_image) as [t_image|e] eqn:Hti; [|done].
  cbn [mbind result_bind].
  assert (Hsf' : with_defaults d !! "lastbackup" = Some stamp_file)
    by by rewrite with_defaults_other.
  assert (Hsi' : with_defaults d !! "lastbackup_image" = Some stamp_image)
    by by rewrite with_defaults_other.
  rewrite (old_of_run _ _ _ maxfiledays fd stamp_file t_file Hfd Hsf' Htf).
  rewrite (old_of_run _ _ _ maximagedays imd stamp_image t_image Himd Hsi' Hti).
  cbn [mbind result_bind]. by rewrite Tfd, Timd.
Qed.

Lemma response_of_readable d maxfiledays maximagedays :
  (∃ r, response_of d maxfiledays maximagedays = Ok r) ↔ readable d = true.
Proof.
  unfold response_of, readable, valid_stamp. rewrite locals_of_cases.
  destruct (d !! "file_ok"); [|by split; [intros [? [=]]|]].
  destruct (d !! "image_ok"); [|by split; [intros [? [=]]|]].
  destruct (d !! "online"); [|by split; [intros [? [=]]|]].
  destruct (d !! "name"); [|by split; [intros [? [=]]|]].
  destruct (d !! "lastbackup") as [stamp_file|]; [|by split; [intros [? [=]]|]].
  destruct (fromtimestamp stamp_file); [|by split; [intros [? [=]]|]].
  destruct (d !! "lastbackup_image") as [stamp_image|];
    [|by split; [intros [? [=]]|]].
  destruct (fromtimestamp stamp_image); [|by split; [intros [? [=]]|]].
  split; [done|]. intros _. by eexists.
Qed.

(** X4: [get_status] returns a verdict exactly for the records that
    have the fields [file_ok], [image_ok], [online] and [name],
    whatever their values, and time stamps [lastbackup] and
    [lastbackup_image] that [datetime.fromtimestamp] accepts; for every
    other record it raises. *)
Theorem get_status_returns_iff_readable l d maxfiledays maximagedays w :
  heap w !! l = Some d →
  (∃ r w', get_status l maxfiledays maximagedays w = (Ok r, w'))
  ↔ readable d = true.
Proof.
  intros Hw.
  destruct (get_status_run l d maxfiledays maximagedays w Hw) as [k Ek].
  rewrite Ek, <- (response_of_readable d maxfiledays maximagedays). split.
  - intros (r & w' & [= -> _]). by eexists.
  - intros [r ->]. by do 2 eexists.
Qed.

(** X5: when one of [file_ok], [image_ok], [online], [name],
    [lastbackup] is missing and the fields before it in this order are
    there, [get_status] raises [KeyError] for exactly that key. *)
Theorem get_status_first_missing_key l d maxfiledays maximagedays w
    before key after :
  heap w !! l = Some d →
  required_keys = before ++ key :: after →
  (∀ k, k ∈ before → is_Some (d !! k)) →
  d !! key = None →
  (get_status l maxfiledays maximagedays w).1 = Raise (KeyError key).
Proof.
  intros Hw Hkeys Hbefore Hkey.
  destruct (get_status_run l d maxfiledays maximagedays w Hw) as [k ->].
  cbn [fst]. unfold response_of. rewrite locals_of_cases.
  unfold required_keys in Hkeys.
  repeat (destruct before as [|? before];
          [injection Hkeys as <- _; by rewrite Hkey
          |injection Hkeys as <- Hkeys;
           match goal with
           | |- context [d !! ?k0] =>
               destruct (Hbefore k0) as [? ->];
                 [repeat first [apply list_elem_of_here
                               |apply list_elem_of_further]|]
           end]).
  by destruct before.
Qed.

(** X6: whether [get_status] returns or raises, by the time it ends it
    has written the two default flags into the record; it has touched
    no other record, printed nothing and only moved the clock on. *)
Theorem get_status_writes_flags_first l d maxfiledays maximagedays w res w' :
  heap w !! l = Some d →
  get_status l maxfiledays maximagedays w = (res, w') →
  heap w' = <[l := with_defaults d]> (heap w)
  ∧ stdout w' = stdout w
  ∧ (ticks w ≤ ticks w')%nat.
Proof.
  intros Hw Hrun.
  destruct (get_status_run l d maxfiledays maximagedays w Hw) as [k Ek].
  rewrite Ek in Hrun. injection Hrun as _ <-.
  cbn [advance set_heap heap stdout ticks]. split; [done|]. split; [done|lia].
Qed.

(** X7: evaluating a client a second time gives the same answer as the
    first time, be it a verdict or an error, and leaves the store as
    the first evaluation left it. *)
Theorem get_status_twice l d maxfiledays maximagedays w res w1 :
  heap w !! l = Some d →
  get_status l maxfiledays maximagedays w = (res, w1) →
  ∃ w2, get_status l maxfiledays maximagedays w1 = (res, w2)
        ∧ heap w2 = heap w1 ∧ stdout w2 = stdout w1.
Proof.
  intros Hw Hrun.
  destruct (get_status_run l d maxfiledays maximagedays w Hw) as [k Ek].
  rewrite Ek in Hrun. injection Hrun as <- <-.
  assert (Hw1 : heap (advance k (set_heap (<[l := with_defaults d]> (heap w)) w))
                !! l = Some (with_defaults d)) by apply lookup_insert_eq.
  destruct (get_status_run l _ maxfiledays maximagedays _ Hw1) as [k2 Ek2].
  rewrite response_of_with_defaults in Ek2.
  eexists. split; [exact Ek2|].
  cbn [advance set_heap heap stdout]. split; [|done].
  rewrite with_defaults_idemp. by rewrite insert_insert_eq.
Qed.

(** X8: for every record for which [get_status] returns, whatever the
    types of its fields, a backup type is failed exactly when its [ok]
    field is false as a truth value and its [disabled] field is absent
    or false; and it is old exactly when the limit on its age is
    negative and its [disabled] field is absent or false: for a limit
    that is unset, zero or positive no type is ever old. *)
Theorem get_status_flags l d maxfiledays maximagedays w v w' :
  heap w !! l = Some d →
  read_client l maxfiledays maximagedays w = (Ok v, w') →
  get_status l maxfiledays maximagedays w = (Ok (verdict v), w')
  ∧ (∃ file_ok image_ok,
       d !! "file_ok" = Some file_ok ∧ d !! "image_ok" = Some image_ok
       ∧ file_failed v = negb (truthy file_ok) && negb (flag d "file_disabled")
       ∧ image_failed v
         = negb (truthy image_ok) && negb (flag d "image_disabled"))
  ∧ file_old v
    = match maxfiledays with Some m => Z.ltb m 0 | None => false end
      && negb (flag d "file_disabled")
  ∧ image_old v
    = match maximagedays with Some m => Z.ltb m 0 | None => false end
      && negb (flag d "image_disabled").
Proof.
  intros Hw Hrun. split.
  { unfold get_status. by rewrite bind_run, Hrun. }
  destruct (read_client_run l d maxfiledays maximagedays w Hw) as [k Ek].
  rewrite Ek in Hrun. injection Hrun as Hv _. clear Ek.
  rewrite locals_of_cases in Hv.
  destruct (d !! "file_ok") as [file_ok|]; [|done].
  destruct (d !! "image_ok") as [image_ok|]; [|done].
  destruct (d !! "online"); [|done]. destruct (d !! "name"); [|done].
  destruct (d !! "lastbackup") as [sf|]; [|done].
  destruct (fromtimestamp sf); [|done].
  destruct (d !! "lastbackup_image") as [si|]; [|done].
  destruct (fromtimestamp si); [|done].
  injection Hv as <-. cbn [file_failed image_failed file_old image_old].
  split; [by exists file_ok, image_ok|].
  by destruct maxfiledays, maximagedays.
Qed.

(** X9: the texts [OK] and [Disabled] that lines 54 and 57 (64 and 67)
    compute never reach the detail: the status line of a type is part
    of the detail only when the type has failed, and then its text is
    [No recent backup]. *)
Theorem status_text_is_no_recent_backup l d maxfiledays maximagedays w v w' :
  heap w !! l = Some d →
  read_client l maxfiledays maximagedays w = (Ok v, w') →
  (file_failed v = true → file_str v = "No recent backup")
  ∧ (image_failed v = true → image_str v = "No recent backup")
  ∧ verdict v
    = verdict {| file_failed := file_failed v;
                 file_str := "No recent backup";
                 image_failed := image_failed v;
                 image_str := "No recent backup";
                 client_online := client_online v;
                 client_name := client_name v;
                 last_file_backup := last_file_backup v;
                 last_image_backup := last_image_backup v;
                 file_old := file_old v;
                 image_old := image_old v |}.
Proof.
  intros Hw Hrun.
  destruct (read_client_run l d maxfiledays maximagedays w Hw) as [k Ek].
  rewrite Ek in Hrun. injection Hrun as Hv _. clear Ek.
  rewrite locals_of_cases in Hv.
  destruct (d !! "file_ok") as [file_ok|]; [|done].
  destruct (d !! "image_ok") as [image_ok|]; [|done].
  destruct (d !! "online"); [|done]. destruct (d !! "name"); [|done].
  destruct (d !! "lastbackup") as [sf|]; [|done].
  destruct (fromtimestamp sf); [|done].
  destruct (d !! "lastbackup_image") as [si|]; [|done].
  destruct (fromtimestamp si); [|done].
  injection Hv as <-.
  unfold verdict, client_status_of, client_details_of, status_text.
  cbn [file_failed file_str image_failed image_str client_online client_name
       last_file_backup last_image_backup file_old image_old].
  by destruct (truthy file_ok), (truthy image_ok),
    (flag d "file_disabled"), (flag d "image_disabled").
Qed.


(** ** The aggregation in terms of the verdicts *)

Lemma for_each_folded regex args clients st w :
  complete (global_count st) →
  ∃ rs w',
    verdicts regex args clients w = (rs, w')
    ∧ for_each (visit regex args) st clients w
      = (match rs with
         | Ok rs => Ok (folded st rs)
         | Raise e => Raise e
         end, w').
Proof.
  revert st w. induction clients as [|l clients IH]; intros st w Hc.
  - by exists (Ok []), w.
  - rewrite verdicts_step. cbn [for_each]. rewrite bind_run, visit_step.
    destruct (getitem l "name" w).1 as [name|e]; [|by exists (Raise e), w].
    destruct (fullmatch_value regex name) as [[|]|e];
      [|by apply IH|by exists (Raise e), w].
    destruct (get_status l (maxfiledays args) (maximagedays args) w)
      as [[r|e] w1]; [|by exists (Raise e), w1].
    rewrite settle_complete by done.
    match goal with
    | |- context [for_each _ ?st1 clients w1] =>
        destruct (IH st1 w1) as (rs & w2 & Erun & Efold);
          [by apply complete_bumped|]
    end.
    rewrite Erun, Efold. destruct rs as [rs|e]; [|by exists (Raise e), w2].
    by exists (Ok (r :: rs)), w2.
Qed.

Lemma get_global_status_folded args clients pat regex w rs w' :
  re_compile pat = Some regex →
  verdicts regex args clients w = (Ok rs, w') →
  get_global_status args clients pat w
  = (Ok (global_status (folded initial_state rs),
         global_details (folded initial_state rs),
         global_count (folded initial_state rs)), w').
Proof.
  intros Hre Hrun.
  destruct (for_each_folded regex args clients initial_state w complete_initial)
    as (rs' & w1 & Erun & Efold).
  rewrite Hrun in Erun. injection Erun as <- <-.
  unfold get_global_status. rewrite Hre, bind_run.
  unfold mret at 1, py_ret at 1. cbv beta iota. by rewrite bind_run, Efold.
Qed.

Lemma folded_status st rs :
  (global_status (folded st rs) = OK
   ↔ global_status st = OK ∧ Forall (λ r, status r = OK) rs)
  ∧ (global_status (folded st rs) = CRITICAL
     ↔ global_status st = CRITICAL ∨ Exists (λ r, status r = CRITICAL) rs).
Proof.
  revert st. induction rs as [|r rs IH]; intros st.
  - cbn [folded]. rewrite Exists_nil. split; [|tauto].
    split; [by intros ->|by intros [? _]].
  - cbn [folded]. destruct (IH {| global_status := merge (global_status st) (status r);
                                  global_details :=
                                    if bool_decide (status r = OK) then global_details st
                                    else global_details st +:+ error r +:+ newline;
                                  global_count := bumped (status r) (global_count st) |})
      as [IHok IHcrit].
    cbn [global_status] in IHok, IHcrit.
    rewrite IHok, IHcrit, Forall_cons, Exists_cons.
    destruct (global_status st), (status r); cbn [merge];
      split; split; intros; try tauto; intuition discriminate.
Qed.

(** X10: the overall status is the worst verdict among the matching
    clients: OK exactly when every verdict is OK, CRITICAL exactly when
    some verdict is CRITICAL, and WARNING exactly when some verdict is
    not OK and none is CRITICAL. *)
Theorem overall_status_is_worst_verdict args clients pat regex w rs w' :
  re_compile pat = Some regex →
  verdicts regex args clients w = (Ok rs, w') →
  ∃ s det c,
    get_global_status args clients pat w = (Ok (s, det, c), w')
    ∧ (s = OK ↔ Forall (λ r, status r = OK) rs)
    ∧ (s = CRITICAL ↔ Exists (λ r, status r = CRITICAL) rs)
    ∧ (s = WARNING
       ↔ ¬ Forall (λ r, status r = OK) rs
         ∧ ¬ Exists (λ r, status r = CRITICAL) rs).
Proof.
  intros Hre Hrun. do 3 eexists.
  split; [by apply (get_global_status_folded args clients pat regex w rs w')|].
  destruct (folded_status initial_state rs) as [Hok Hcrit].
  cbn [initial_state global_status] in Hok, Hcrit.
  destruct (global_status (folded initial_state rs)).
  - split; [|split]; split; try done.
    + intros _. by apply Hok.
    + intros Hex. apply Hcrit. by right.
    + intros [Hno _]. destruct Hno. by apply Hok.
  - split; [|split]; split; try done.
    + intros Hall. apply Hok. by split.
    + intros Hex. apply Hcrit. by right.
    + intros _. split.
      * intros Hall. assert (WARNING = OK); [|done]. apply Hok. by split.
      * intros Hex. assert (WARNING = CRITICAL); [|done]. apply Hcrit. by right.
  - split; [|split]; split; try done.
    + intros Hall. apply Hok. by split.
    + intros _. by destruct (proj1 Hcrit eq_refl).
    + intros [_ Hno]. destruct Hno. by destruct (proj1 Hcrit eq_refl).
Qed.

Lemma bumped_lookup_status s' c s :
  bumped s' c !! KStatus s
  = if decide (s' = s) then Some (default 0 (c !! KStatus s) + 1)
    else c !! KStatus s.
Proof.
  unfold bumped. rewrite lookup_insert_ne by done. rewrite lookup_insert.
  destruct (decide (s' = s)) as [->|Hne].
  - by rewrite decide_True.
  - rewrite decide_False; [done|]. by intros [= ?].
Qed.

Lemma bumped_lookup_all s' c :
  bumped s' c !! KAll = Some (default 0 (c !! KAll) + 1).
Proof.
  unfold bumped. rewrite lookup_insert_eq. by rewrite lookup_insert_ne.
Qed.

Lemma folded_count_status s rs st n :
  global_count st !! KStatus s = Some n →
  global_count (folded st rs) !! KStatus s
  = Some (n + Z.of_nat (length (filter (λ r, status r = s) rs))).
Proof.
  revert st n. induction rs as [|r rs IH]; intros st n Hn.
  - cbn. rewrite Hn. f_equal. lia.
  - cbn [folded]. rewrite filter_cons.
    destruct (decide (status r = s)) as [Hs|Hs].
    + erewrite IH.
      2: { cbn [global_count]. rewrite bumped_lookup_status, decide_True by done.
           by rewrite Hn. }
      cbn [length default from_option id]. f_equal. lia.
    + erewrite IH; [done|].
      cbn [global_count]. by rewrite bumped_lookup_status, decide_False.
Qed.

Lemma folded_count_all rs st n :
  global_count st !! KAll = Some n →
  global_count (folded st rs) !! KAll = Some (n + Z.of_nat (length rs)).
Proof.
  revert st n. induction rs as [|r rs IH]; intros st n Hn.
  - cbn. rewrite Hn. f_equal. lia.
  - cbn [folded]. erewrite IH.
    2: { cbn [global_count]. by rewrite bumped_lookup_all, Hn. }
    cbn [length default from_option id]. f_equal. lia.
Qed.

(** X11: in the count mapping of the result, the entry of each status
    is the number of matching clients with that verdict (a WARNING
    client met after a CRITICAL one is still counted as WARNING), and
    the entry ["all"] is the number of matching clients. *)
Theorem counts_per_status args clients pat regex w rs w' :
  re_compile pat = Some regex →
  verdicts regex args clients w = (Ok rs, w') →
  ∃ s det c,
    get_global_status args clients pat w = (Ok (s, det, c), w')
    ∧ (∀ v, c !! KStatus v
            = Some (Z.of_nat (length (filter (λ r, status r = v) rs))))
    ∧ c !! KAll = Some (Z.of_nat (length rs)).
Proof.
  intros Hre Hrun. do 3 eexists.
  split; [by apply (get_global_status_folded args clients pat regex w rs w')|].
  split.
  - intros v. by rewrite (folded_count_status v rs initial_state 0)
      by by destruct v.
  - by rewrite (folded_count_all rs initial_state 0).
Qed.


(** ** What the aggregation leaves alone *)

Lemma name_matches_same regex h h' l :
  same_records h h' → name_matches regex h l = name_matches regex h' l.
Proof.
  intros Hsame. specialize (Hsame l). unfold name_matches.
  destruct (h !! l) as [d|], (h' !! l) as [d'|]; cbn in Hsame; try done.
  injection Hsame as Hsame.
  by rewrite <- (with_defaults_name d), Hsame, with_defaults_name.
Qed.

Lemma for_each_frame regex args clients st w res w' :
  for_each (visit regex args) st clients w = (res, w') →
  stdout w' = stdout w
  ∧ (ticks w ≤ ticks w')%nat
  ∧ ∀ l, heap w' !! l = heap w !! l
         ∨ (l ∈ clients ∧ name_matches regex (heap w) l = true
            ∧ heap w' !! l = with_defaults <$> heap w !! l).
Proof.
  revert st w. induction clients as [|l0 clients IH]; intros st w.
  - intros [= _ <-]. split; [done|]. split; [done|]. by left.
  - cbn [for_each]. rewrite bind_run, visit_step. unfold getitem.
    assert (Hskip : ∀ st1,
              for_each (visit regex args) st1 clients w = (res, w') →
              stdout w' = stdout w ∧ (ticks w ≤ ticks w')%nat
              ∧ ∀ l, heap w' !! l = heap w !! l
                     ∨ (l ∈ l0 :: clients ∧ name_matches regex (heap w) l = true
                        ∧ heap w' !! l = with_defaults <$> heap w !! l)).
    { intros st1 Hrest. destruct (IH _ _ Hrest) as (Hout & Htick & Hheap).
      split; [done|]. split; [done|]. intros l.
      destruct (Hheap l) as [?|(? & ? & ?)]; [by left|right].
      split; [by right|done]. }
    assert (Hstop : ∀ e, (Raise e, w) = (res, w') →
              stdout w' = stdout w ∧ (ticks w ≤ ticks w')%nat
              ∧ ∀ l, heap w' !! l = heap w !! l
                     ∨ (l ∈ l0 :: clients ∧ name_matches regex (heap w) l = true
                        ∧ heap w' !! l = with_defaults <$> heap w !! l)).
    { intros e [= _ <-]. split; [done|]. split; [done|]. by left. }
    destruct (heap w !! l0) as [d|] eqn:Hw; cbn [fst]; [|by apply Hstop].
    destruct (d !! "name") as [name|] eqn:Hn; cbn [fst]; [|by apply Hstop].
    destruct name as [| | |s]; cbn [fullmatch_value]; try by apply Hstop.
    destruct (fullmatch regex s) eqn:Hm; [|by apply Hskip].
    destruct (get_status_run l0 d (maxfiledays args) (maximagedays args) w Hw)
      as [k ->].
    set (w1 := advance k (set_heap (<[l0 := with_defaults d]> (heap w)) w)).
    assert (Hl0 : name_matches regex (heap w) l0 = true).
    { unfold name_matches. by rewrite Hw, Hn. }
    assert (Hone : ∀ l, heap w1 !! l = heap w !! l
                        ∨ (l ∈ l0 :: clients
                           ∧ name_matches regex (heap w) l = true
                           ∧ heap w1 !! l = with_defaults <$> heap w !! l)).
    { intros l. cbn [w1 advance set_heap heap].
      destruct (decide (l = l0)) as [->|Hne].
      - right. split; [by left|]. split; [done|].
        by rewrite lookup_insert_eq, Hw.
      - left. by rewrite lookup_insert_ne. }
    assert (Hend : ∀ r, (r, w1) = (res, w') →
              stdout w' = stdout w ∧ (ticks w ≤ ticks w')%nat
              ∧ ∀ l, heap w' !! l = heap w !! l
                     ∨ (l ∈ l0 :: clients ∧ name_matches regex (heap w) l = true
                        ∧ heap w' !! l = with_defaults <$> heap w !! l)).
    { intros r [= _ <-]. split; [done|]. split; [cbn; lia|done]. }
    destruct (response_of d (maxfiledays args) (maximagedays args)) as [r|e];
      [|by apply Hend].
    destruct (settle st r) as [st1|e]; [|by apply Hend].
    intros Hrest. destruct (IH _ _ Hrest) as (Hout & Htick & Hheap).
    split; [by rewrite Hout|]. split; [cbn in Htick; lia|].
    assert (Hsame : same_records (heap w) (heap w1)).
    { cbn [w1 advance set_heap heap]. by apply same_records_touch. }
    intros l. destruct (Hheap l) as [Hl|(Hin & Hmatch & Hl)].
    + rewrite Hl. apply Hone.
    + right. split; [by right|].
      split; [by rewrite (name_matches_same regex _ _ l Hsame)|].
      rewrite Hl. destruct (Hone l) as [->|(_ & _ & ->)]; [done|].
      destruct (heap w !! l) as [dl|]; [|done].
      cbn. by rewrite with_defaults_idemp.
Qed.

Lemma get_global_status_frame args clients pat w res w' :
  get_global_status args clients pat w = (res, w') →
  stdout w' = stdout w
  ∧ (ticks w ≤ ticks w')%nat
  ∧ ∀ l, heap w' !! l = heap w !! l
         ∨ (∃ regex, re_compile pat = Some regex
              ∧ l ∈ clients ∧ name_matches regex (heap w) l = true
              ∧ heap w' !! l = with_defaults <$> heap w !! l).
Proof.
  unfold get_global_status. rewrite bind_run.
  destruct (re_compile pat) as [regex|] eqn:Hre.
  2: { intros [= _ <-]. split; [done|]. split; [done|]. by left. }
  unfold mret at 1, py_ret at 1. cbv beta iota. rewrite bind_run.
  destruct (for_each (visit regex args) initial_state clients w)
    as [r w1] eqn:Hrun.
  apply for_each_frame in Hrun as (Hout & Htick & Hheap).
  assert (w' = w1 → stdout w' = stdout w ∧ (ticks w ≤ ticks w')%nat
          ∧ ∀ l, heap w' !! l = heap w !! l
                 ∨ (∃ regex0, Some regex = Some regex0
                      ∧ l ∈ clients ∧ name_matches regex0 (heap w) l = true
                      ∧ heap w' !! l = with_defaults <$> heap w !! l)) as Hgoal.
  { intros ->. split; [done|]. split; [done|]. intros l.
    destruct (Hheap l) as [?|?]; [by left|right]. by exists regex. }
  destruct r as [st|e]; intros [= _ <-]; by apply Hgoal.
Qed.

(** X12: however the aggregation ends, it has printed nothing and has
    only moved the clock on, and every record of the store is either
    exactly what it was or, if it is in the list and its name matches
    the pattern, what it was with the two default flags filled in:
    records that do not match are never written to. *)
Theorem aggregation_frame args clients pat w res w' :
  get_global_status args clients pat w = (res, w') →
  stdout w' = stdout w
  ∧ (ticks w ≤ ticks w')%nat
  ∧ ∀ l, heap w' !! l = heap w !! l
         ∨ (∃ regex, re_compile pat = Some regex
              ∧ l ∈ clients ∧ name_matches regex (heap w) l = true
              ∧ heap w' !! l = with_defaults <$> heap w !! l).
Proof. apply get_global_status_frame. Qed.

(** ** When the aggregation returns *)

Lemma outcome_ok_iff regex args (h : gmap ref dict) l :
  (∃ o, outcome_at regex args h l = Ok o)
  ↔ ∃ d s, h !! l = Some d ∧ d !! "name" = Some (VStr s)
           ∧ (fullmatch regex s = true → readable d = true).
Proof.
  unfold outcome_at, record_outcome, lookup_item.
  destruct (h !! l) as [d|].
  2: { split; [by intros [? [=]]|by intros (? & ? & [=] & _)]. }
  destruct (d !! "name") as [[| | |s]|] eqn:Hn; cbn;
    try (split; [by intros [? [=]]
                |intros (? & ? & [= <-] & ? & _); congruence]).
  destruct (fullmatch regex s) eqn:Hm.
  - pose proof (response_of_readable d (maxfiledays args) (maximagedays args))
      as Hread.
    destruct (response_of d (maxfiledays args) (maximagedays args)) as [r|e]; cbn.
    + split; [|by eexists]. intros _. exists d, s.
      split; [done|]. split; [done|]. intros _. apply Hread. by eexists.
    + split; [by intros [? [=]]|].
      intros (d' & s' & [= <-] & Hn' & Hr).
      rewrite Hn in Hn'. injection Hn' as <-.
      destruct (proj2 Hread (Hr Hm)) as [? [=]].
  - split; [|by eexists]. intros _. exists d, s.
    split; [done|]. split; [done|]. intros Hm'. congruence.
Qed.

Lemma pure_fold_ok_iff {A} (f : A → result (option BackupStatusResponse))
    (xs : list A) st :
  complete (global_count st) →
  (∃ st', pure_fold st (map f xs) = Ok st')
  ↔ ∀ x, x ∈ xs → ∃ o, f x = Ok o.
Proof.
  revert st. induction xs as [|x xs IH]; intros st Hc.
  - split; [|by eexists]. intros _ x Hx. by apply elem_of_nil in Hx.
  - cbn [map pure_fold]. destruct (f x) as [o|e] eqn:Ex; cbn [mbind result_bind].
    + destruct (absorb_complete st o Hc) as (st1 & -> & Hc1).
      cbn [mbind result_bind]. rewrite (IH st1 Hc1). split.
      * intros Hxs y [->|Hy]%elem_of_cons; [by eexists|by apply Hxs].
      * intros Hxs y Hy. apply Hxs. by right.
    + split; [by intros [? [=]]|]. intros Hxs.
      destruct (Hxs x) as [o Ho]; [by left|]. congruence.
Qed.

(** X13: with a pattern that compiles, the aggregation returns a result
    exactly when every record of the list has a [str] name and every
    record whose name the pattern matches has the fields and time
    stamps [get_status] needs; records that do not match need nothing
    but their name. *)
Theorem aggregation_returns_iff args clients pat regex w :
  re_compile pat = Some regex →
  (∃ res w', get_global_status args clients pat w = (Ok res, w'))
  ↔ ∀ l, l ∈ clients →
         ∃ d s, heap w !! l = Some d ∧ d !! "name" = Some (VStr s)
                ∧ (fullmatch regex s = true → readable d = true).
Proof.
  intros Hre.
  destruct (get_global_status_run args clients pat regex w Hre) as (w1 & E & _).
  rewrite E. clear E.
  pose proof (pure_fold_ok_iff (outcome_at regex args (heap w)) clients
                initial_state complete_initial) as Hfold.
  assert (Hout : (∀ l, l ∈ clients → ∃ o, outcome_at regex args (heap w) l = Ok o)
                 ↔ ∀ l, l ∈ clients →
                        ∃ d s, heap w !! l = Some d ∧ d !! "name" = Some (VStr s)
                               ∧ (fullmatch regex s = true → readable d = true)).
  { split; intros H l Hl.
    - apply (proj1 (outcome_ok_iff regex args (heap w) l)). by apply H.
    - apply (proj2 (outcome_ok_iff regex args (heap w) l)). by apply H. }
  rewrite <- Hout, <- Hfold.
  destruct (pure_fold initial_state _) as [st|e]; cbn [mbind result_bind].
  - split; intros _; by eauto.
  - split; [by intros (? & ? & [=])|by intros [? [=]]].
Qed.


(** ** Which records take part *)

Lemma folded_details st rs :
  global_details (folded st rs) = global_details st +:+ detail_text rs.
Proof.
  revert st. induction rs as [|r rs IH]; intros st; cbn [folded detail_text].
  - by rewrite append_empty_r.
  - rewrite IH. cbn [global_details].
    destruct (bool_decide (status r = OK)); [done|]. by rewrite !append_assoc.
Qed.

Lemma Forall2_elem_impl {A B} (P Q : A → B → Prop) xs ys :
  Forall2 P xs ys → (∀ x y, x ∈ xs → P x y → Q x y) → Forall2 Q xs ys.
Proof.
  induction 1 as [|x y xs ys Hxy Hrest IH]; intros Himpl; constructor.
  - apply Himpl; [by left|done].
  - apply IH. intros x' y' Hx'. apply Himpl. by right.
Qed.

(** What [get_status] answers is the verdict of the record. *)
Lemma get_status_answer l d maxfiledays maximagedays w :
  heap w !! l = Some d →
  (get_status l maxfiledays maximagedays w).1
  = response_of d maxfiledays maximagedays.
Proof.
  intros Hw.
  by destruct (get_status_run l d maxfiledays maximagedays w Hw) as [k ->].
Qed.

(** The loop folds in the verdicts of the records that match, and of
    no other. *)
Lemma pure_fold_matching regex args (h : gmap ref dict) clients st rs :
  named_fleet h clients → complete (global_count st) →
  Forall2 (λ l r, ∃ d, h !! l = Some d
                       ∧ response_of d (maxfiledays args) (maximagedays args)
                         = Ok r)
    (List.filter (name_matches regex h) clients) rs →
  pure_fold st (map (outcome_at regex args h) clients) = Ok (folded st rs).
Proof.
  revert st rs. induction clients as [|l clients IH]; intros st rs Hnamed Hc Hrs.
  - cbn [List.filter] in Hrs. by apply Forall2_nil_inv_l in Hrs as ->.
  - destruct (Hnamed l) as (d & s & Hl & Hn); [by left|].
    assert (Hrest : named_fleet h clients).
    { intros l' Hl'. apply Hnamed. by right. }
    assert (Eo : outcome_at regex args h l
                 = if fullmatch regex s
                   then r ← response_of d (maxfiledays args) (maximagedays args);
                        Ok (Some r)
                   else Ok None).
    { unfold outcome_at, record_outcome, lookup_item. by rewrite Hl, Hn. }
    assert (Em : name_matches regex h l = fullmatch regex s).
    { unfold name_matches. by rewrite Hl, Hn. }
    cbn [map pure_fold List.filter] in *. rewrite Eo. rewrite Em in Hrs.
    destruct (fullmatch regex s).
    + apply Forall2_cons_inv_l in Hrs as (r & rs' & (d' & Hd' & Hr) & Hrs & ->).
      rewrite Hl in Hd'. injection Hd' as <-. rewrite Hr.
      cbn [mbind result_bind absorb]. rewrite settle_complete by done.
      cbn [mbind result_bind folded].
      apply IH; [done|by apply complete_bumped|done].
    + cbn [mbind result_bind absorb]. by apply IH.
Qed.

(** Where every record of the list has an outcome, every record that
    matches has a verdict. *)
Lemma matching_verdicts regex args (h : gmap ref dict) clients :
  named_fleet h clients →
  (∀ l, l ∈ clients → ∃ o, outcome_at regex args h l = Ok o) →
  ∃ rs,
    Forall2 (λ l r, ∃ d, h !! l = Some d
                         ∧ response_of d (maxfiledays args) (maximagedays args)
                           = Ok r)
      (List.filter (name_matches regex h) clients) rs.
Proof.
  induction clients as [|l clients IH]; intros Hnamed Hout.
  - exists []. cbn [List.filter]. constructor.
  - destruct (Hnamed l) as (d & s & Hl & Hn); [by left|].
    destruct IH as [rs Hrs].
    { intros l' Hl'. apply Hnamed. by right. }
    { intros l' Hl'. apply Hout. by right. }
    destruct (Hout l) as [o Ho]; [by left|].
    assert (Em : name_matches regex h l = fullmatch regex s).
    { unfold name_matches. by rewrite Hl, Hn. }
    cbn [List.filter]. rewrite Em.
    unfold outcome_at in Ho. rewrite Hl in Ho.
    unfold record_outcome, lookup_item in Ho. rewrite Hn in Ho.
    cbn [mbind result_bind fullmatch_value] in Ho.
    destruct (fullmatch regex s); [|by exists rs].
    destruct (response_of d (maxfiledays args) (maximagedays args)) as [r|e]
      eqn:Hr; [|done].
    exists (r :: rs). constructor; [|done]. by exists d.
Qed.

(** C5: with a pattern that compiles and records that all have a
    name, the records that take part are those whose whole name the
    pattern matches.  Every such record is evaluated and counted:
    where [get_status] has a verdict for each of them, the aggregation
    returns, its detail is the text of these verdicts in input order,
    its count under ["all"] is their number, its count under each
    status the number of them with that status and its overall status
    the worst of them; and the aggregation returns only where each of
    them has a verdict.  The other records take no part: they can be
    dropped from the input without any change to status, detail,
    counts or store, and the aggregation is the folding algorithm of
    the specification run on the matching records alone.  When no
    record matches, the result is OK with an empty detail and every
    count zero. *)
Theorem only_matching_records_take_part args clients pat regex w :
  re_compile pat = Some regex → named_fleet (heap w) clients →
  let matching := List.filter (name_matches regex (heap w)) clients in
  let evaluates l r :=
    (get_status l (maxfiledays args) (maximagedays args) w).1 = Ok r in
  get_global_status args clients pat w = aggregate args matching w
  ∧ get_global_status args clients pat w
    = get_global_status args matching pat w
  ∧ (matching = [] →
     ∃ c, get_global_status args clients pat w = (Ok (OK, "", c), w)
          ∧ ∀ key, c !! key = Some 0)
  ∧ (∀ rs, Forall2 evaluates matching rs →
       ∃ s c w',
         get_global_status args clients pat w = (Ok (s, detail_text rs, c), w')
         ∧ c !! KAll = Some (Z.of_nat (length matching))
         ∧ (∀ v, c !! KStatus v
                 = Some (Z.of_nat (length (filter (λ r, status r = v) rs))))
         ∧ (s = OK ↔ Forall (λ r, status r = OK) rs)
         ∧ (s = CRITICAL ↔ Exists (λ r, status r = CRITICAL) rs))
  ∧ (∀ res w', get_global_status args clients pat w = (Ok res, w') →
       ∃ rs, Forall2 evaluates matching rs).
Proof.
  intros Hre Hnamed matching evaluates.
  assert (Hagg : ∀ cs, named_fleet (heap w) cs →
            get_global_status args cs pat w
            = aggregate args (List.filter (name_matches regex (heap w)) cs) w).
  { intros cs Hcs. unfold get_global_status, aggregate. rewrite Hre, bind_run.
    unfold mret at 1, py_ret at 1. cbv beta iota. rewrite !bind_run.
    by rewrite (for_each_filter regex args (heap w))
      by auto using complete_initial, same_records_refl. }
  assert (Hin : ∀ l, l ∈ matching → l ∈ clients).
  { intros l Hl. unfold matching in Hl.
    apply list_elem_of_In, filter_In in Hl as [Hl _]. by apply list_elem_of_In. }
  assert (Hpure : ∀ rs,
            Forall2 evaluates matching rs
            ↔ Forall2 (λ l r, ∃ d, heap w !! l = Some d
                         ∧ response_of d (maxfiledays args) (maximagedays args)
                           = Ok r) matching rs).
  { intros rs. split; intros Hrs.
    - eapply Forall2_elem_impl; [exact Hrs|]. intros l r Hl Hev.
      destruct (Hnamed l (Hin l Hl)) as (d & s & Hd & _).
      exists d. split; [done|]. unfold evaluates in Hev.
      by rewrite (get_status_answer l d _ _ w Hd) in Hev.
    - eapply Forall2_impl; [exact Hrs|]. intros l r (d & Hd & Hr).
      unfold evaluates. by rewrite (get_status_answer l d _ _ w Hd). }
  destruct (get_global_status_run args clients pat regex w Hre)
    as (w1 & Erun & _).
  split; [by apply Hagg|]. split; [|split; [|split]].
  - rewrite (Hagg clients Hnamed), (Hagg matching).
    + unfold matching. by rewrite filter_filter.
    + intros l Hl. by apply Hnamed, Hin.
  - intros Hnone. rewrite (Hagg clients Hnamed). fold matching. rewrite Hnone.
    exists (global_count initial_state). split; [done|].
    by intros [[]|].
  - intros rs Hrs%Hpure.
    pose proof (Forall2_length _ _ _ Hrs) as Hlen.
    rewrite (pure_fold_matching regex args (heap w) clients initial_state rs
               Hnamed complete_initial Hrs) in Erun.
    cbn [mbind result_bind] in Erun.
    rewrite folded_details in Erun. cbn [initial_state global_details] in Erun.
    exists (global_status (folded initial_state rs)),
      (global_count (folded initial_state rs)), w1.
    split; [exact Erun|]. split; [|split].
    + rewrite (folded_count_all rs initial_state 0) by done.
      by rewrite Hlen.
    + intros v. by rewrite (folded_count_status v rs initial_state 0)
        by by destruct v.
    + destruct (folded_status initial_state rs) as [Hok Hcrit].
      cbn [initial_state global_status] in Hok, Hcrit.
      rewrite Hok, Hcrit. split; split; try tauto.
      by intros [|].
  - intros res w' Hrun. rewrite Erun in Hrun.
    destruct (pure_fold initial_state _) as [st|] eqn:Efold; [|done].
    destruct (matching_verdicts regex args (heap w) clients Hnamed) as [rs Hrs].
    + apply (proj1 (pure_fold_ok_iff (outcome_at regex args (heap w)) clients
                      initial_state complete_initial)).
      by exists st.
    + exists rs. by apply Hpure.
Qed.


(** ** The exit code, whatever the collaborator does *)

Lemma catchable_bind {A B} (r : result A) (f : A → result B) :
  catchable r → (∀ a, catchable (f a)) → catchable (r ≫= f).
Proof.
  intros Hr Hf e. destruct r as [a|e']; cbn [mbind result_bind]; [apply Hf|].
  intros [= <-]. by apply Hr.
Qed.

Lemma catchable_ok {A} (a : A) : catchable (Ok a).
Proof. by intros e. Qed.

Lemma catchable_lookup (d : dict) key : catchable (lookup_item d key).
Proof. unfold lookup_item. destruct (d !! key); by intros e [= <-]. Qed.

Lemma catchable_fromtimestamp v : catchable (fromtimestamp v).
Proof.
  unfold fromtimestamp.
  destruct v as [|b|n|s]; try (by intros e [= <-]);
    (destruct (localtime _) as [t|[]]; by intros e [= <-]).
Qed.

Lemma catchable_response d maxfiledays maximagedays :
  catchable (response_of d maxfiledays maximagedays).
Proof.
  unfold response_of. rewrite locals_of_cases.
  destruct (d !! "file_ok"); [|by intros e [= <-]].
  destruct (d !! "image_ok"); [|by intros e [= <-]].
  destruct (d !! "online"); [|by intros e [= <-]].
  destruct (d !! "name"); [|by intros e [= <-]].
  destruct (d !! "lastbackup") as [sf|]; [|by intros e [= <-]].
  pose proof (catchable_fromtimestamp sf) as Hsf.
  destruct (fromtimestamp sf); [|intros e' [= <-]; by apply Hsf].
  destruct (d !! "lastbackup_image") as [si|]; [|by intros e [= <-]].
  pose proof (catchable_fromtimestamp si) as Hsi.
  destruct (fromtimestamp si); [|intros e' [= <-]; by apply Hsi].
  apply catchable_ok.
Qed.

Lemma catchable_outcome regex args h l : catchable (outcome_at regex args h l).
Proof.
  unfold outcome_at, record_outcome. destruct (h !! l) as [d|];
    [|by intros e [= <-]].
  apply catchable_bind; [apply catchable_lookup|intros name].
  apply catchable_bind.
  { destruct name; by intros e [= <-]. }
  intros [|]; [|apply catchable_ok].
  apply catchable_bind; [apply catchable_response|intros; apply catchable_ok].
Qed.

Lemma catchable_counted key c : catchable (counted key c).
Proof. unfold counted. destruct (c !! key); by intros e [= <-]. Qed.

Lemma catchable_absorb st o : catchable (absorb st o).
Proof.
  destruct o as [r|]; cbn [absorb]; [|apply catchable_ok]. unfold settle.
  apply catchable_bind; [apply catchable_counted|intros c1].
  apply catchable_bind; [apply catchable_counted|intros c2].
  destruct (bool_decide _); [apply catchable_ok|].
  destruct (_ && _); apply catchable_ok.
Qed.

Lemma catchable_pure_fold outcomes st :
  (∀ o, o ∈ outcomes → catchable o) → catchable (pure_fold st outcomes).
Proof.
  revert st. induction outcomes as [|o outcomes IH]; intros st Hall.
  - apply catchable_ok.
  - cbn [pure_fold]. apply catchable_bind; [apply Hall; by left|intros v].
    apply catchable_bind; [apply catchable_absorb|intros st1].
    apply IH. intros o' Ho'. apply Hall. by right.
Qed.

(** The aggregation raises nothing that [except Exception] lets
    through. *)
Lemma get_global_status_catchable args clients pat w :
  catchable (get_global_status args clients pat w).1.
Proof.
  destruct (re_compile pat) as [regex|] eqn:Hre.
  - destruct (get_global_status_run args clients pat regex w Hre) as (w1 & -> & _).
    cbn [fst]. apply catchable_bind; [|intros; apply catchable_ok].
    apply catchable_pure_fold. intros o Ho.
    apply list_elem_of_In, in_map_iff in Ho as (l & <- & _).
    apply catchable_outcome.
  - unfold get_global_status. rewrite Hre. by intros e [= <-].
Qed.

Lemma main_caught fetch args w e w1 :
  try_body fetch args w = (Raise e, w1) → is_exception e = true →
  main fetch args w
  = (Raise (SystemExit 3),
     {| heap := heap w1; ticks := ticks w1;
        stdout := stdout w1 ++ ["Error Occured:  " +:+ exn_str e]
                    ++ ["UNKOWN"] |}).
Proof.
  intros Hbody He. unfold main. rewrite bind_run. unfold try_except.
  rewrite Hbody.
  destruct e; try done;
    unfold print, sys_exit, raise, mbind, py_bind; cbn [heap ticks stdout];
    by rewrite <- app_assoc.
Qed.

Lemma main_passes_exit fetch args w n w1 :
  try_body fetch args w = (Raise (SystemExit n), w1) →
  main fetch args w = (Raise (SystemExit n), w1).
Proof.
  intros Hbody. unfold main. rewrite bind_run. unfold try_except.
  by rewrite Hbody.
Qed.

(** X14: the module ends in one of two ways.  If the calls into
    [urbackup_api] raise [SystemExit], the process exits with that
    code and prints nothing of its own.  In every other case, whether
    the fetch fails, the aggregation fails or the aggregation returns
    any result at all, it prints one [Error Occured] line for an
    exception and the line [UNKOWN], and exits with 3: the exit codes
    0, 1 and 2 of lines 187, 191 and 194 are never reached. *)
Theorem main_exit_codes fetch args w :
  match (fetch w).1 with
  | Raise (SystemExit n) =>
      main fetch args w = (Raise (SystemExit n), (fetch w).2)
  | _ =>
      ∃ e w1,
        is_exception e = true
        ∧ stdout w1 = stdout (fetch w).2
        ∧ main fetch args w
          = (Raise (SystemExit 3),
             {| heap := heap w1; ticks := ticks w1;
                stdout := stdout w1 ++ ["Error Occured:  " +:+ exn_str e]
                            ++ ["UNKOWN"] |})
  end.
Proof.
  assert (Hbody : try_body fetch args w
                  = match fetch w with
                    | (Ok clients, w0) =>
                        match get_global_status args clients (client args) w0 with
                        | (Ok _, w1) => (Raise TypeError, w1)
                        | (Raise e, w1) => (Raise e, w1)
                        end
                    | (Raise e, w0) => (Raise e, w0)
                    end).
  { unfold try_body. rewrite bind_run.
    destruct (fetch w) as [[clients|e] w0]; [|done]. cbv zeta.
    rewrite bind_run.
    destruct (get_global_status args clients (client args) w0)
      as [[[[s det] c]|e] w1]; [|done].
    apply report_raises. }
  destruct (fetch w) as [[clients|e] w0] eqn:Hfetch; cbn [fst snd].
  - pose proof (get_global_status_catchable args clients (client args) w0) as Hc.
    pose proof (get_global_status_frame args clients (client args) w0) as Hf.
    destruct (get_global_status args clients (client args) w0)
      as [[res|e] w1]; cbn [fst] in Hc.
    + exists TypeError, w1. split; [done|].
      split; [by destruct (Hf _ _ eq_refl)|]. by apply main_caught.
    + exists e, w1. specialize (Hc e eq_refl). split; [done|].
      split; [by destruct (Hf _ _ eq_refl)|]. by apply main_caught.
  - assert (Hcaught : is_exception e = true →
              ∃ e1 w1,
                is_exception e1 = true ∧ stdout w1 = stdout w0
                ∧ main fetch args w
                  = (Raise (SystemExit 3),
                     {| heap := heap w1; ticks := ticks w1;
                        stdout := stdout w1
                                    ++ ["Error Occured:  " +:+ exn_str e1]
                                    ++ ["UNKOWN"] |})).
    { intros He. exists e, w0. split; [done|]. split; [done|].
      by apply main_caught. }
    destruct e; try by apply Hcaught. by apply main_passes_exit.
Qed.


(** ** The age limits of the command line *)

Lemma response_of_accepted d maxfiledays maximagedays :
  (∀ m, maxfiledays = Some m → 1 ≤ m) →
  (∀ m, maximagedays = Some m → 1 ≤ m) →
  response_of d maxfiledays maximagedays = response_of d None None.
Proof.
  intros Hfile Himage. unfold response_of. rewrite !locals_of_cases.
  by rewrite !old_flag_accepted.
Qed.

Lemma pure_fold_ext {A} (f g : A → result (option BackupStatusResponse))
    (xs : list A) st :
  (∀ x, f x = g x) → pure_fold st (map f xs) = pure_fold st (map g xs).
Proof. intros Hfg. f_equal. apply map_ext. intros x. apply Hfg. Qed.

(** X16: [check_positive] lets a limit through only if it is 1 or
    more, and with such limits, or none, every answer is what it is
    without any limit: [--maxfiledays] and [--maximagedays] change no
    verdict of [get_status] and nothing in the result of
    [get_global_status]. *)
Theorem age_limits_change_nothing args clients pat w l d :
  (∀ m, maxfiledays args = Some m → ∃ ivalue, check_positive ivalue = Ok m) →
  (∀ m, maximagedays args = Some m → ∃ ivalue, check_positive ivalue = Ok m) →
  (heap w !! l = Some d →
   (get_status l (maxfiledays args) (maximagedays args) w).1
   = (get_status l None None w).1)
  ∧ (get_global_status args clients pat w).1
    = (get_global_status
         {| client := client args; maxfiledays := None; maximagedays := None |}
         clients pat w).1.
Proof.
  intros Hfile Himage.
  assert (Hf : ∀ m, maxfiledays args = Some m → 1 ≤ m).
  { intros m Hm. destruct (Hfile m Hm) as [i Hi].
    by apply check_positive_accepts in Hi as [_ ?]. }
  assert (Hi : ∀ m, maximagedays args = Some m → 1 ≤ m).
  { intros m Hm. destruct (Himage m Hm) as [i Hi].
    by apply check_positive_accepts in Hi as [_ ?]. }
  split.
  - intros Hw.
    destruct (get_status_run l d (maxfiledays args) (maximagedays args) w Hw)
      as [k ->].
    destruct (get_status_run l d None None w Hw) as [k' ->].
    cbn [fst]. by apply response_of_accepted.
  - destruct (re_compile pat) as [regex|] eqn:Hre.
    + destruct (get_global_status_run args clients pat regex w Hre)
        as (w1 & -> & _).
      destruct (get_global_status_run
                  {| client := client args; maxfiledays := None;
                     maximagedays := None |} clients pat regex w Hre)
        as (w2 & -> & _).
      cbn [fst]. f_equal. apply pure_fold_ext. intros l'.
      unfold outcome_at, record_outcome. cbn [maxfiledays maximagedays].
      destruct (heap w !! l') as [d'|]; [|done].
      by rewrite response_of_accepted.
    + unfold get_global_status. by rewrite Hre.
Qed.


End Program.

(** * Worked examples on the sample fleet *)

Lemma sample_fleet_well_formed :
  well_formed_fleet utc sample_heap [0; 1; 2; 3; 4]%nat.
Proof.
  intros l Hl.
  repeat (apply elem_of_cons in Hl as [->|Hl]; [eexists; split; reflexivity|]).
  by apply elem_of_nil in Hl.
Qed.

Lemma sample_fleet_named : named_fleet sample_heap [0; 1; 2; 3; 4]%nat.
Proof.
  intros l Hl.
  repeat (apply elem_of_cons in Hl as [->|Hl];
          [do 2 eexists; split; reflexivity|]).
  by apply elem_of_nil in Hl.
Qed.

(** C1 (the code misses it): the last file backup of client [e] is ten
    days old, the file type is not disabled and the limit is one day,
    yet [is_file_old] answers [False] and [get_status] answers OK: the
    test reads [diff.seconds], the part of the age below one day. *)
Theorem is_file_old_misses_ten_days :
  sample_heap !! 4%nat = Some client_e
  ∧ client_e !! "lastbackup" = Some (VInt sample_time)
  ∧ client_e !! "file_disabled" = Some (VBool false)
  ∧ fromtimestamp utc (VInt sample_time)
    = Ok (sample_time * 1000000)
  ∧ datetime_sub (sample_clock 0) (sample_time * 1000000)
    = {| days := 10; seconds := 0; microseconds := 0 |}
  ∧ (is_file_old utc sample_clock 4%nat 1 sample_world).1
    = Ok false
  ∧ (get_status utc sample_clock sample_strftime 4%nat (Some 1)
       None sample_world).1
    = Ok {| status := OK; error := "" |}.
Proof. repeat split; reflexivity. Qed.

(** C2 (the code misses it): client [b] is offline, both its backup
    types are ok and not disabled, and its last backups are ten days
    old under limits of one day for either type.  The verdict table
    has CRITICAL for an offline client with a stale backup;
    [get_status] runs both staleness tests, finds neither type old and
    answers WARNING, the row for an offline client with nothing failed
    or stale.  The online client [e], as stale, gets OK where the
    table has CRITICAL.  Lines 84-95 are that table; the two flags
    they read come from the test on [diff.seconds]. *)
Theorem get_status_misses_staleness :
  sample_heap !! 1%nat = Some client_b
  ∧ well_formed utc client_b = true
  ∧ flag client_b "online" = false
  ∧ flag client_b "file_ok" = true
  ∧ flag client_b "image_ok" = true
  ∧ flag client_b "file_disabled" = false
  ∧ flag client_b "image_disabled" = false
  ∧ check_positive 1 = Ok 1
  ∧ datetime_sub (sample_clock 0)
      (stamp_field utc client_b "lastbackup")
    = {| days := 10; seconds := 0; microseconds := 0 |}
  ∧ datetime_sub (sample_clock 1)
      (stamp_field utc client_b "lastbackup_image")
    = {| days := 10; seconds := 0; microseconds := 1 |}
  ∧ (read_client utc sample_clock 1%nat (Some 1) (Some 1)
       sample_world).1
    = Ok (expected_locals utc client_b (Some 1) (Some 1))
  ∧ ticks (read_client utc sample_clock 1%nat (Some 1) (Some 1)
             sample_world).2 = 2%nat
  ∧ file_old (expected_locals utc client_b (Some 1) (Some 1))
    = false
  ∧ image_old (expected_locals utc client_b (Some 1) (Some 1))
    = false
  ∧ (get_status utc sample_clock sample_strftime 1%nat (Some 1)
       (Some 1) sample_world).1
    = Ok {| status := WARNING; error := "<b>HostName: b</b>, Online: False" |}
  ∧ (get_status utc sample_clock sample_strftime 4%nat (Some 1)
       (Some 1) sample_world).1
    = Ok {| status := OK; error := "" |}.
Proof. repeat split; reflexivity. Qed.

(** C6 (the code misses it): for a fleet of one healthy client the
    aggregation returns OK with the counts 1 of 1, and the module
    prints the error and [UNKOWN] instead of the counts and exits
    with 3 instead of 0. *)
Theorem main_exits_unknown_on_healthy_fleet :
  summary (get_global_status utc sample_clock sample_strftime string
             sample_compile
             sample_fullmatch sample_args [0%nat] ".*" sample_world).1
  = Some (OK, <[KAll := 1]> (<[KStatus OK := 1]> (global_count initial_state)))
  ∧ exit_code (main utc sample_clock sample_strftime string sample_compile
                 sample_fullmatch sample_exn_str (mret [0%nat]) sample_args
                 sample_world).1 = 3
  ∧ stdout (main utc sample_clock sample_strftime string sample_compile
              sample_fullmatch sample_exn_str (mret [0%nat]) sample_args
              sample_world).2
    = ["Error Occured:  'BackupStatus' object is not subscriptable"; "UNKOWN"].
Proof. repeat split; reflexivity. Qed.

(** C7 as first stated fails: client [a] has no [file_disabled] field
    before [get_status] runs and has one afterwards, so the store is not
    what it was. *)
Lemma get_status_changes_record :
  (get_status utc sample_clock sample_strftime 0%nat None None sample_world).1
  = Ok {| status := OK; error := "" |}
  ∧ heap sample_world !! 0%nat = Some client_a
  ∧ client_a !! "file_disabled" = None
  ∧ heap (get_status utc sample_clock sample_strftime 0%nat None None
            sample_world).2
      !! 0%nat ≫= (λ d : dict, d !! "file_disabled")
    = Some (VBool false)
  ∧ heap (get_status utc sample_clock sample_strftime 0%nat None None
            sample_world).2
    ≠ heap sample_world.
Proof.
  split; [reflexivity|].
  split; [reflexivity|]. split; [reflexivity|].
  split; [reflexivity|].
  intros Heq.
  apply (f_equal (λ h : gmap ref dict,
                    h !! 0%nat ≫= (λ d : dict, d !! "file_disabled"))) in Heq.
  vm_compute in Heq. discriminate.
Qed.

(** C3 from a status that is already CRITICAL, with the offline client
    [b], whose verdict is WARNING, still to come. *)
Lemma overall_status_never_decreases_witness :
  let st := {| global_status := CRITICAL;
               global_details := "earlier";
               global_count := global_count initial_state |} in
  let st' := {| global_status := CRITICAL;
                global_details :=
                  "earlier" +:+ "<b>HostName: b</b>, Online: False" +:+ newline;
                global_count :=
                  <[KAll := 1]> (<[KStatus WARNING := 1]>
                    (global_count initial_state)) |} in
  let w' := {| heap := <[1%nat := with_defaults client_b]> sample_heap;
               ticks := 1; stdout := [] |} in
  for_each (visit utc sample_clock sample_strftime string sample_fullmatch ".*"
              sample_args) st [1%nat] sample_world
  = (Ok st', w')
  ∧ enum_value (global_status st) ≤ enum_value (global_status st')
  ∧ (global_status st = CRITICAL → global_status st' = CRITICAL).
Proof.
  intros st st' w'.
  assert (H : for_each (visit utc sample_clock sample_strftime string
                          sample_fullmatch
                          ".*" sample_args) st [1%nat] sample_world
              = (Ok st', w')) by reflexivity.
  exact (conj H
    (overall_status_never_decreases utc sample_clock sample_strftime string
       sample_fullmatch ".*" sample_args [1%nat] st sample_world st' w' H)).
Defined.

(** C4 on client [d], whose file backup is disabled and marked not ok. *)
Lemma disabled_type_is_masked_witness :
  heap sample_world !! 3%nat = Some client_d
  ∧ well_formed utc client_d = true
  ∧ ∃ v w',
      read_client utc sample_clock 3%nat (Some 1) None sample_world = (Ok v, w')
      ∧ get_status utc sample_clock sample_strftime 3%nat (Some 1) None
        sample_world
        = (Ok (verdict sample_strftime v), w')
      ∧ (flag client_d "file_disabled" = true →
         file_failed v = false ∧ file_old v = false
         ∧ ∀ b t m,
             is_timestamp utc (Some (VInt t)) = true →
             (get_status utc sample_clock sample_strftime 3%nat m None
                (set_heap (<[3%nat := <["file_ok" := VBool b]>
                                        (<["lastbackup" := VInt t]> client_d)]>
                             (heap sample_world)) sample_world)).1
             = Ok (verdict sample_strftime v))
      ∧ (flag client_d "image_disabled" = true →
         image_failed v = false ∧ image_old v = false
         ∧ ∀ b t m,
             is_timestamp utc (Some (VInt t)) = true →
             (get_status utc sample_clock sample_strftime 3%nat (Some 1) m
                (set_heap (<[3%nat := <["image_ok" := VBool b]>
                                        (<["lastbackup_image" := VInt t]>
                                           client_d)]>
                             (heap sample_world)) sample_world)).1
             = Ok (verdict sample_strftime v)).
Proof.
  assert (H1 : heap sample_world !! 3%nat = Some client_d)
    by reflexivity.
  assert (H2 : well_formed utc client_d = true) by reflexivity.
  exact (conj H1 (conj H2
    (disabled_type_is_masked utc sample_clock sample_strftime 3%nat client_d
       (Some 1) None sample_world H1 H2))).
Defined.

(** C5 with the pattern [c] on client [c], the record without
    [file_ok] and client [a]: only client [c] matches; it is evaluated
    and counted, and the record that cannot be evaluated does no harm. *)
Lemma only_matching_records_take_part_witness :
  let clients := [2; 5; 0]%nat in
  let verdict_c :=
    {| status := CRITICAL;
       error := "<b>HostName: c</b>, Online: True, "
                +:+ "<b>Status Filebackup: No recent backup</b>" |} in
  let run := get_global_status utc sample_clock sample_strftime
               string sample_compile sample_fullmatch sample_args in
  let matching :=
    List.filter (name_matches string sample_fullmatch "c" (heap broken_world))
      clients in
  let evaluates l r :=
    (get_status utc sample_clock sample_strftime l
       (maxfiledays sample_args) (maximagedays sample_args) broken_world).1
    = Ok r in
  sample_compile "c" = Some "c"
  ∧ named_fleet (heap broken_world) clients
  ∧ (run clients "c" broken_world
     = aggregate utc sample_clock sample_strftime sample_args matching
       broken_world
     ∧ run clients "c" broken_world = run matching "c" broken_world
     ∧ (matching = [] →
        ∃ c, run clients "c" broken_world = (Ok (OK, "", c), broken_world)
             ∧ ∀ key, c !! key = Some 0)
     ∧ (∀ rs, Forall2 evaluates matching rs →
          ∃ s c w',
            run clients "c" broken_world = (Ok (s, detail_text rs, c), w')
            ∧ c !! KAll = Some (Z.of_nat (length matching))
            ∧ (∀ v, c !! KStatus v
                    = Some (Z.of_nat (length (filter (λ r, status r = v) rs))))
            ∧ (s = OK ↔ Forall (λ r, status r = OK) rs)
            ∧ (s = CRITICAL ↔ Exists (λ r, status r = CRITICAL) rs))
     ∧ (∀ res w', run clients "c" broken_world = (Ok res, w') →
          ∃ rs, Forall2 evaluates matching rs))
  ∧ matching = [2%nat]
  ∧ Forall2 evaluates matching [verdict_c]
  ∧ ∃ c w',
      run clients "c" broken_world
      = (Ok (CRITICAL, error verdict_c +:+ newline, c), w')
      ∧ c !! KAll = Some 1
      ∧ c !! KStatus CRITICAL = Some 1.
Proof.
  intros clients verdict_c run matching evaluates.
  assert (H1 : sample_compile "c" = Some "c") by reflexivity.
  assert (H2 : named_fleet (heap broken_world) clients).
  { intros l Hl.
    repeat (apply elem_of_cons in Hl as [->|Hl];
            [do 2 eexists; split; reflexivity|]).
    by apply elem_of_nil in Hl. }
  assert (H3 : matching = [2%nat]) by reflexivity.
  assert (H4 : Forall2 evaluates matching [verdict_c]).
  { rewrite H3. constructor; [|constructor]. vm_compute. reflexivity. }
  pose proof (only_matching_records_take_part utc sample_clock
                sample_strftime string sample_compile sample_fullmatch
                sample_args clients "c" "c" broken_world H1 H2) as Hthm.
  split; [exact H1|]. split; [exact H2|]. split; [exact Hthm|].
  split; [exact H3|]. split; [exact H4|].
  destruct Hthm as (_ & _ & _ & Hif & _).
  destruct (Hif [verdict_c] H4) as (s & c & w' & Hrun & Hall & Hcount & _ &
                                      Hcrit).
  exists c, w'. split; [|split].
  - unfold run. rewrite Hrun.
    assert (s = CRITICAL) as -> by (apply Hcrit; by left). reflexivity.
  - exact Hall.
  - exact (Hcount CRITICAL).
Defined.

(** C7 on client [a], which comes without the two flags. *)
Lemma get_status_fills_in_flags_witness :
  let r := {| status := OK; error := "" |} in
  let w' := {| heap := <[0%nat := with_defaults client_a]> sample_heap;
               ticks := 0; stdout := [] |} in
  heap sample_world !! 0%nat = Some client_a
  ∧ get_status utc sample_clock sample_strftime 0%nat None None sample_world
    = (Ok r, w')
  ∧ ∃ d',
      heap w' = <[0%nat := d']> (heap sample_world)
      ∧ (∀ key v, client_a !! key = Some v → d' !! key = Some v)
      ∧ (∀ key, client_a !! key = None →
           d' !! key = if decide (key = "file_disabled" ∨ key =
                                    "image_disabled")
                       then Some (VBool false) else None)
      ∧ (is_Some (client_a !! "file_disabled") →
         is_Some (client_a !! "image_disabled") →
         heap w' = heap sample_world).
Proof.
  intros r w'.
  assert (H1 : heap sample_world !! 0%nat = Some client_a)
    by reflexivity.
  assert (H2 : get_status utc sample_clock sample_strftime 0%nat None None
            sample_world
               = (Ok r, w')) by reflexivity.
  exact (conj H1 (conj H2
    (get_status_fills_in_flags utc sample_clock sample_strftime 0%nat client_a
       None None sample_world r w' H1 H2))).
Defined.

(** C8 on three clients in two orders; both give CRITICAL with one
    client counted under each status. *)
Lemma aggregation_order_independent_witness :
  [0; 1; 2]%nat ≡ₚ [2; 0; 1]%nat
  ∧ summary (get_global_status utc sample_clock sample_strftime string
               sample_compile
               sample_fullmatch sample_args [0; 1; 2]%nat ".*" sample_world).1
    = summary (get_global_status utc sample_clock sample_strftime string
                 sample_compile sample_fullmatch sample_args [2; 0; 1]%nat ".*"
                 sample_world).1
  ∧ summary (get_global_status utc sample_clock sample_strftime string
               sample_compile
               sample_fullmatch sample_args [2; 0; 1]%nat ".*" sample_world).1
    = Some (CRITICAL,
            <[KAll := 3]> (<[KStatus CRITICAL := 1]> (<[KStatus WARNING := 1]>
              (<[KStatus OK := 1]> ∅)))).
Proof.
  assert (H : [0; 1; 2]%nat ≡ₚ [2; 0; 1]%nat)
    by exact (Permutation_app_comm [0; 1]%nat [2]%nat).
  exact (conj H (conj
    (aggregation_order_independent utc sample_clock sample_strftime string
       sample_compile sample_fullmatch sample_args [0; 1; 2]%nat [2; 0; 1]%nat
       ".*" sample_world H)
    eq_refl)).
Defined.


(** C10 on the whole sample fleet. *)
Lemma counts_add_up_witness :
  is_Some (sample_compile ".*")
  ∧ well_formed_fleet utc (heap sample_world) [0; 1; 2; 3; 4]%nat
  ∧ ∃ s det c w',
      get_global_status utc sample_clock sample_strftime string sample_compile
        sample_fullmatch sample_args [0; 1; 2; 3; 4]%nat ".*" sample_world
      = (Ok (s, det, c), w')
      ∧ ∃ regex n_ok n_warning n_critical,
          sample_compile ".*" = Some regex
          ∧ c !! KStatus OK = Some n_ok
          ∧ c !! KStatus WARNING = Some n_warning
          ∧ c !! KStatus CRITICAL = Some n_critical
          ∧ c !! KAll = Some (n_ok + n_warning + n_critical)
          ∧ n_ok + n_warning + n_critical
            = Z.of_nat (length (List.filter
                (name_matches string sample_fullmatch regex (heap sample_world))
                [0; 1; 2; 3; 4]%nat)).
Proof.
  assert (H1 : is_Some (sample_compile ".*")) by by eexists.
  pose proof (counts_add_up utc sample_clock sample_strftime string
                sample_compile
                sample_fullmatch sample_args [0; 1; 2; 3; 4]%nat ".*"
                sample_world) as [Hsum Hreturns].
  destruct (Hreturns H1 sample_fleet_well_formed) as (s & det & c & w' & Hrun).
  split; [exact H1|]. split; [exact sample_fleet_well_formed|].
  exists s, det, c, w'. split; [exact Hrun|]. exact (Hsum s det c w' Hrun).
Defined.

(** * Across clocks *)

(** X15: on one platform, what [get_status] answers is fixed by the
    content of the record and the two limits: it is the same under any
    two clocks,
    however often they have been read, for any two references to
    records with the same content, and whatever else the store holds.
    So is what [get_global_status] answers on stores with the same
    records. *)
Theorem answers_ignore_the_clock (localtime : Z → datetime + stamp_error)
    (clock1 clock2 : nat → datetime) (strftime : datetime → string) :
  (∀ l1 l2 d maxfiledays maximagedays w1 w2,
     heap w1 !! l1 = Some d → heap w2 !! l2 = Some d →
     (get_status localtime clock1 strftime l1 maxfiledays maximagedays w1).1
     = (get_status localtime clock2 strftime l2 maxfiledays maximagedays w2).1)
  ∧ (∀ (Pattern : Type) (re_compile : string → option Pattern)
       (fullmatch : Pattern → string → bool) args clients pat w1 w2,
       heap w1 = heap w2 →
       (get_global_status localtime clock1 strftime Pattern re_compile fullmatch
          args
          clients pat w1).1
       = (get_global_status localtime clock2 strftime Pattern re_compile
            fullmatch args
            clients pat w2).1).
Proof.
  split.
  - intros l1 l2 d maxfiledays maximagedays w1 w2 H1 H2.
    destruct (get_status_run localtime clock1 strftime l1 d maxfiledays
                maximagedays w1 H1)
      as [k1 ->].
    by destruct (get_status_run localtime clock2 strftime l2 d maxfiledays
                   maximagedays w2 H2)
      as [k2 ->].
  - intros Pattern re_compile fullmatch args clients pat w1 w2 Hheap.
    destruct (re_compile pat) as [regex|] eqn:Hre.
    + destruct (get_global_status_run localtime clock1 strftime Pattern
                  re_compile fullmatch
                  args clients pat regex w1 Hre) as (w1' & -> & _).
      destruct (get_global_status_run localtime clock2 strftime Pattern
                  re_compile fullmatch
                  args clients pat regex w2 Hre) as (w2' & -> & _).
      cbn [fst]. by rewrite Hheap.
    + unfold get_global_status. by rewrite Hre.
Qed.

(** * The further properties on the sample fleet *)

(** X1 on client [e] with a limit of one day. *)
Lemma is_old_exact_witness :
  heap sample_world !! 4%nat = Some client_e
  ∧ client_e !! "file_disabled" = Some (VBool false)
  ∧ client_e !! "lastbackup" = Some (VInt sample_time)
  ∧ fromtimestamp utc (VInt sample_time) = Ok (sample_time * 1000000)
  ∧ is_old utc sample_clock "file_disabled" "lastbackup" 4%nat 1 sample_world
    = (Ok ((Z.ltb 1 0
            || (Z.eqb 1 0
                && Z.leb 3600
                     (seconds (datetime_sub (sample_clock (ticks sample_world))
                                 (sample_time * 1000000)))))
           && negb (truthy (VBool false))),
       {| heap := heap sample_world; ticks := S (ticks sample_world);
          stdout := stdout sample_world |})
  ∧ (1 ≤ 1 →
     (is_old utc sample_clock "file_disabled" "lastbackup" 4%nat 1
        sample_world).1
     = Ok false)
  ∧ (1 < 0 →
     (is_old utc sample_clock "file_disabled" "lastbackup" 4%nat 1
        sample_world).1
     = Ok (negb (truthy (VBool false)))).
Proof.
  assert (H1 : heap sample_world !! 4%nat = Some client_e) by reflexivity.
  assert (H2 : client_e !! "file_disabled" = Some (VBool false)) by reflexivity.
  assert (H3 : client_e !! "lastbackup" = Some (VInt sample_time)) by
    reflexivity.
  assert (H4 : fromtimestamp utc (VInt sample_time) = Ok (sample_time *
                                                            1000000))
    by reflexivity.
  exact (conj H1 (conj H2 (conj H3 (conj H4
    (is_old_exact utc sample_clock "file_disabled" "lastbackup" 4%nat client_e
       (VBool false) (VInt sample_time) (sample_time * 1000000) 1 sample_world
       H1 H2 H3 H4))))).
Defined.

(** X2 on client [e]: a last backup three days earlier, limit 0. *)
Lemma is_old_ignores_whole_days_witness :
  heap sample_world !! 4%nat = Some client_e
  ∧ client_e !! "file_disabled" = Some (VBool false)
  ∧ client_e !! "lastbackup" = Some (VInt sample_time)
  ∧ "file_disabled" ≠ "lastbackup"
  ∧ fromtimestamp utc (VInt sample_time)
    = Ok (sample_time * 1000000)
  ∧ fromtimestamp utc (VInt (sample_time - 259200))
    = Ok (sample_time * 1000000 - 3 * 86400000000)
  ∧ (is_old utc sample_clock "file_disabled" "lastbackup" 4%nat 0
       (set_heap (<[4%nat := <["lastbackup" := VInt (sample_time - 259200)]>
                               client_e]> (heap sample_world)) sample_world)).1
    = (is_old utc sample_clock "file_disabled" "lastbackup" 4%nat 0
         sample_world).1.
Proof.
  assert (H1 : heap sample_world !! 4%nat = Some client_e) by reflexivity.
  assert (H2 : client_e !! "file_disabled" = Some (VBool false)) by reflexivity.
  assert (H3 : client_e !! "lastbackup" = Some (VInt sample_time)) by
    reflexivity.
  assert (H4 : "file_disabled" ≠ "lastbackup") by discriminate.
  assert (H5 : fromtimestamp utc (VInt sample_time)
               = Ok (sample_time * 1000000)) by reflexivity.
  assert (H6 : fromtimestamp utc (VInt (sample_time - 259200))
               = Ok (sample_time * 1000000 - 3 * 86400000000)) by reflexivity.
  exact (conj H1 (conj H2 (conj H3 (conj H4 (conj H5 (conj H6
    (is_old_ignores_whole_days utc sample_clock "file_disabled"
       "lastbackup" 4%nat client_e (VBool false) (VInt sample_time)
       (VInt (sample_time - 259200)) (sample_time * 1000000) 3 0 sample_world
       H1 H2 H3 H4 H5 H6))))))).
Defined.

(** Two time stamps 180 days apart on either side of the change to
    summer time: 2024-06-01 12:00:00 and 2023-12-04 11:00:00 on the
    wall clock.  At 12:30:00 on 2024-06-01 and with the limit 0 the
    first is not old and the second is: their wall-clock times are not
    whole days apart. *)
Example is_old_across_zone_change :
  let now := (1717236000 + 7200 + 1800) * 1000000 in
  let at_stamp n :=
    set_heap (<[4%nat := <["lastbackup" := VInt n]> client_e]> sample_heap)
      sample_world in
  1717236000 - 180 * 86400 = 1701684000
  ∧ fromtimestamp cet (VInt 1717236000) = Ok ((1717236000 + 7200) * 1000000)
  ∧ fromtimestamp cet (VInt 1701684000)
    = Ok ((1717236000 + 7200) * 1000000 - 180 * 86400000000 - 3600000000)
  ∧ (is_file_old cet (λ _, now) 4%nat 0 (at_stamp 1717236000)).1 = Ok false
  ∧ (is_file_old cet (λ _, now) 4%nat 0 (at_stamp 1701684000)).1 = Ok true.
Proof. repeat split; reflexivity. Qed.

(** X3 on client [a], which [get_status] has not been through. *)
Lemma is_old_errors_witness :
  heap sample_world !! 0%nat = Some client_a
  ∧ client_a !! "file_disabled" = None
  ∧ is_old utc sample_clock "file_disabled" "lastbackup" 0%nat 1 sample_world
    = (Raise (KeyError "file_disabled"), sample_world).
Proof.
  assert (H1 : heap sample_world !! 0%nat = Some client_a) by reflexivity.
  assert (H2 : client_a !! "file_disabled" = None) by reflexivity.
  exact (conj H1 (conj H2
    (proj1 (is_old_errors utc sample_clock "file_disabled" "lastbackup" 0%nat
              client_a 1 sample_world H1) H2))).
Defined.

(** X4 on the record without [file_ok]. *)
Lemma get_status_returns_iff_readable_witness :
  heap broken_world !! 5%nat = Some client_broken
  ∧ readable utc client_broken = false
  ∧ ((∃ r w', get_status utc sample_clock sample_strftime 5%nat (Some 1) None
                broken_world = (Ok r, w'))
     ↔ readable utc client_broken = true).
Proof.
  assert (H1 : heap broken_world !! 5%nat = Some client_broken) by reflexivity.
  assert (H2 : readable utc client_broken = false) by reflexivity.
  exact (conj H1 (conj H2
    (get_status_returns_iff_readable utc sample_clock sample_strftime 5%nat
       client_broken (Some 1) None broken_world H1))).
Defined.

(** X5 on the record without [file_ok]. *)
Lemma get_status_first_missing_key_witness :
  heap broken_world !! 5%nat = Some client_broken
  ∧ required_keys
    = [] ++ "file_ok" :: ["image_ok"; "online"; "name"; "lastbackup"]
  ∧ (∀ k : string, k ∈ @nil string → is_Some (client_broken !! k))
  ∧ client_broken !! "file_ok" = None
  ∧ (get_status utc sample_clock sample_strftime 5%nat (Some 1) None
       broken_world).1
    = Raise (KeyError "file_ok").
Proof.
  assert (H1 : heap broken_world !! 5%nat = Some client_broken) by reflexivity.
  assert (H2 : required_keys
               = [] ++ "file_ok" :: ["image_ok"; "online"; "name";
                                       "lastbackup"])
    by reflexivity.
  assert (H3 : ∀ k : string, k ∈ @nil string → is_Some (client_broken !! k)).
  { intros k Hk. by apply elem_of_nil in Hk. }
  assert (H4 : client_broken !! "file_ok" = None) by reflexivity.
  exact (conj H1 (conj H2 (conj H3 (conj H4
    (get_status_first_missing_key utc sample_clock sample_strftime 5%nat
       client_broken (Some 1) None broken_world [] "file_ok"
       ["image_ok"; "online"; "name"; "lastbackup"] H1 H2 H3 H4))))).
Defined.

(** X6 on the record without [file_ok]: the call raises and the flags
    are written all the same. *)
Lemma get_status_writes_flags_first_witness :
  let res := Raise (KeyError "file_ok") in
  let w' := {| heap := <[5%nat := with_defaults client_broken]>
                         (heap broken_world);
               ticks := 0; stdout := [] |} in
  heap broken_world !! 5%nat = Some client_broken
  ∧ get_status utc sample_clock sample_strftime 5%nat (Some 1) None broken_world
    = (res, w')
  ∧ heap w' = <[5%nat := with_defaults client_broken]> (heap broken_world)
  ∧ stdout w' = stdout broken_world
  ∧ (ticks broken_world ≤ ticks w')%nat.
Proof.
  intros res w'.
  assert (H1 : heap broken_world !! 5%nat = Some client_broken) by reflexivity.
  assert (H2 : get_status utc sample_clock sample_strftime 5%nat (Some 1) None
                 broken_world = (res, w')) by (vm_compute; reflexivity).
  exact (conj H1 (conj H2
    (get_status_writes_flags_first utc sample_clock sample_strftime 5%nat
       client_broken (Some 1) None broken_world res w' H1 H2))).
Defined.

(** X7 on the offline client [b]. *)
Lemma get_status_twice_witness :
  let res := Ok {| status := WARNING;
                   error := "<b>HostName: b</b>, Online: False" |} in
  let w1 := {| heap := <[1%nat := with_defaults client_b]> sample_heap;
               ticks := 1; stdout := [] |} in
  heap sample_world !! 1%nat = Some client_b
  ∧ get_status utc sample_clock sample_strftime 1%nat (Some 1) None sample_world
    = (res, w1)
  ∧ ∃ w2, get_status utc sample_clock sample_strftime 1%nat (Some 1) None w1
          = (res, w2)
          ∧ heap w2 = heap w1 ∧ stdout w2 = stdout w1.
Proof.
  intros res w1.
  assert (H1 : heap sample_world !! 1%nat = Some client_b) by reflexivity.
  assert (H2 : get_status utc sample_clock sample_strftime 1%nat (Some 1) None
                 sample_world = (res, w1)) by (vm_compute; reflexivity).
  exact (conj H1 (conj H2
    (get_status_twice utc sample_clock sample_strftime 1%nat client_b (Some 1)
       None
       sample_world res w1 H1 H2))).
Defined.

(** X8 on client [c] with a negative file limit, as a direct caller of
    [get_status] can pass it. *)
Lemma get_status_flags_witness :
  let v := expected_locals utc client_c (Some (-1)) None in
  let w' := {| heap := <[2%nat := with_defaults client_c]> sample_heap;
               ticks := 1; stdout := [] |} in
  heap sample_world !! 2%nat = Some client_c
  ∧ read_client utc sample_clock 2%nat (Some (-1)) None sample_world = (Ok v,
                                                                          w')
  ∧ get_status utc sample_clock sample_strftime 2%nat (Some (-1)) None
    sample_world
    = (Ok (verdict sample_strftime v), w')
  ∧ (∃ file_ok image_ok,
       client_c !! "file_ok" = Some file_ok
       ∧ client_c !! "image_ok" = Some image_ok
       ∧ file_failed v
         = negb (truthy file_ok) && negb (flag client_c "file_disabled")
       ∧ image_failed v
         = negb (truthy image_ok) && negb (flag client_c "image_disabled"))
  ∧ file_old v
    = match Some (-1) with Some m => Z.ltb m 0 | None => false end
      && negb (flag client_c "file_disabled")
  ∧ image_old v
    = match @None Z with Some m => Z.ltb m 0 | None => false end
      && negb (flag client_c "image_disabled").
Proof.
  intros v w'.
  assert (H1 : heap sample_world !! 2%nat = Some client_c) by reflexivity.
  assert (H2 : read_client utc sample_clock 2%nat (Some (-1)) None sample_world
               = (Ok v, w')) by (vm_compute; reflexivity).
  exact (conj H1 (conj H2
    (get_status_flags utc sample_clock sample_strftime 2%nat client_c (Some
                                                                         (-1))
       None sample_world v w' H1 H2))).
Defined.

(** X9 on client [c], whose file backup has failed. *)
Lemma status_text_is_no_recent_backup_witness :
  let v := expected_locals utc client_c (Some 1) None in
  let w' := {| heap := <[2%nat := with_defaults client_c]> sample_heap;
               ticks := 1; stdout := [] |} in
  heap sample_world !! 2%nat = Some client_c
  ∧ read_client utc sample_clock 2%nat (Some 1) None sample_world = (Ok v, w')
  ∧ (file_failed v = true → file_str v = "No recent backup")
  ∧ (image_failed v = true → image_str v = "No recent backup")
  ∧ verdict sample_strftime v
    = verdict sample_strftime
        {| file_failed := file_failed v;
           file_str := "No recent backup";
           image_failed := image_failed v;
           image_str := "No recent backup";
           client_online := client_online v;
           client_name := client_name v;
           last_file_backup := last_file_backup v;
           last_image_backup := last_image_backup v;
           file_old := file_old v;
           image_old := image_old v |}.
Proof.
  intros v w'.
  assert (H1 : heap sample_world !! 2%nat = Some client_c) by reflexivity.
  assert (H2 : read_client utc sample_clock 2%nat (Some 1) None sample_world
               = (Ok v, w')) by (vm_compute; reflexivity).
  exact (conj H1 (conj H2
    (status_text_is_no_recent_backup utc sample_clock sample_strftime 2%nat
       client_c
       (Some 1) None sample_world v w' H1 H2))).
Defined.

(** X10 on the clients [a], [b], [c]: OK, WARNING and CRITICAL give
    CRITICAL. *)
Lemma overall_status_is_worst_verdict_witness :
  sample_compile ".*" = Some ".*"
  ∧ verdicts utc sample_clock sample_strftime string sample_fullmatch ".*"
      sample_args [0; 1; 2]%nat sample_world
    = (Ok sample_verdicts, sample_world_after)
  ∧ ∃ s det c,
      get_global_status utc sample_clock sample_strftime string sample_compile
        sample_fullmatch sample_args [0; 1; 2]%nat ".*" sample_world
      = (Ok (s, det, c), sample_world_after)
      ∧ (s = OK ↔ Forall (λ r, status r = OK) sample_verdicts)
      ∧ (s = CRITICAL ↔ Exists (λ r, status r = CRITICAL) sample_verdicts)
      ∧ (s = WARNING
         ↔ ¬ Forall (λ r, status r = OK) sample_verdicts
           ∧ ¬ Exists (λ r, status r = CRITICAL) sample_verdicts).
Proof.
  assert (H1 : sample_compile ".*" = Some ".*") by reflexivity.
  assert (H2 : verdicts utc sample_clock sample_strftime string sample_fullmatch
            ".*"
                 sample_args [0; 1; 2]%nat sample_world
               = (Ok sample_verdicts, sample_world_after))
    by (vm_compute; reflexivity).
  exact (conj H1 (conj H2
    (overall_status_is_worst_verdict utc sample_clock sample_strftime string
       sample_compile sample_fullmatch sample_args [0; 1; 2]%nat ".*" ".*"
       sample_world sample_verdicts sample_world_after H1 H2))).
Defined.

(** X11 on the clients [a], [b], [c]. *)
Lemma counts_per_status_witness :
  sample_compile ".*" = Some ".*"
  ∧ verdicts utc sample_clock sample_strftime string sample_fullmatch ".*"
      sample_args [0; 1; 2]%nat sample_world
    = (Ok sample_verdicts, sample_world_after)
  ∧ ∃ s det c,
      get_global_status utc sample_clock sample_strftime string sample_compile
        sample_fullmatch sample_args [0; 1; 2]%nat ".*" sample_world
      = (Ok (s, det, c), sample_world_after)
      ∧ (∀ v, c !! KStatus v
              = Some (Z.of_nat (length (filter (λ r, status r = v)
                                          sample_verdicts))))
      ∧ c !! KAll = Some (Z.of_nat (length sample_verdicts)).
Proof.
  assert (H1 : sample_compile ".*" = Some ".*") by reflexivity.
  assert (H2 : verdicts utc sample_clock sample_strftime string sample_fullmatch
            ".*"
                 sample_args [0; 1; 2]%nat sample_world
               = (Ok sample_verdicts, sample_world_after))
    by (vm_compute; reflexivity).
  exact (conj H1 (conj H2
    (counts_per_status utc sample_clock sample_strftime string sample_compile
       sample_fullmatch sample_args [0; 1; 2]%nat ".*" ".*" sample_world
       sample_verdicts sample_world_after H1 H2))).
Defined.

(** X12 with the pattern [c] on the whole sample fleet: only client
    [c] is written to. *)
Lemma aggregation_frame_witness :
  let res := Ok (CRITICAL,
                 "<b>HostName: c</b>, Online: True, "
                 +:+ "<b>Status Filebackup: No recent backup</b>" +:+ newline,
                 <[KAll := 1]> (<[KStatus CRITICAL := 1]>
                   (global_count initial_state))) in
  let w' := {| heap := <[2%nat := with_defaults client_c]> sample_heap;
               ticks := 1; stdout := [] |} in
  get_global_status utc sample_clock sample_strftime string sample_compile
    sample_fullmatch sample_args [0; 1; 2; 3; 4]%nat "c" sample_world
  = (res, w')
  ∧ stdout w' = stdout sample_world
  ∧ (ticks sample_world ≤ ticks w')%nat
  ∧ ∀ l, heap w' !! l = heap sample_world !! l
         ∨ (∃ regex, sample_compile "c" = Some regex
              ∧ l ∈ [0; 1; 2; 3; 4]%nat
              ∧ name_matches string sample_fullmatch regex (heap sample_world) l
                = true
              ∧ heap w' !! l = with_defaults <$> heap sample_world !! l).
Proof.
  intros res w'.
  assert (H : get_global_status utc sample_clock sample_strftime string
                sample_compile sample_fullmatch sample_args [0; 1; 2; 3; 4]%nat
                "c" sample_world = (res, w')) by (vm_compute; reflexivity).
  exact (conj H
    (aggregation_frame utc sample_clock sample_strftime string sample_compile
       sample_fullmatch sample_args [0; 1; 2; 3; 4]%nat "c" sample_world res w'
       H)).
Defined.

(** X13 with the pattern [b] on client [b] and the record without
    [file_ok]: that record does not match and does no harm. *)
Lemma aggregation_returns_iff_witness :
  sample_compile "b" = Some "b"
  ∧ ((∃ res w',
        get_global_status utc sample_clock sample_strftime string sample_compile
          sample_fullmatch sample_args [1; 5]%nat "b" broken_world
        = (Ok res, w'))
     ↔ ∀ l, l ∈ [1; 5]%nat →
            ∃ d s, heap broken_world !! l = Some d
                   ∧ d !! "name" = Some (VStr s)
                   ∧ (sample_fullmatch "b" s = true → readable utc d = true))
  ∧ ∃ res w',
      get_global_status utc sample_clock sample_strftime string sample_compile
        sample_fullmatch sample_args [1; 5]%nat "b" broken_world
      = (Ok res, w').
Proof.
  assert (H1 : sample_compile "b" = Some "b") by reflexivity.
  pose proof (aggregation_returns_iff utc sample_clock sample_strftime string
                sample_compile sample_fullmatch sample_args [1; 5]%nat "b" "b"
                broken_world H1) as Hiff.
  split; [exact H1|]. split; [exact Hiff|].
  apply (proj2 Hiff). intros l Hl.
  apply elem_of_cons in Hl as [->|Hl];
    [do 2 eexists; split; [reflexivity|]; split; [reflexivity|]; reflexivity|].
  apply elem_of_cons in Hl as [->|Hl];
    [do 2 eexists; split; [reflexivity|]; split; [reflexivity|]; discriminate|].
  by apply elem_of_nil in Hl.
Defined.

(** X15 on client [b] under the sample clock and under a clock that
    stands still at 0. *)
Lemma answers_ignore_the_clock_witness :
  heap sample_world !! 1%nat = Some client_b
  ∧ heap broken_world !! 1%nat = Some client_b
  ∧ (get_status utc sample_clock sample_strftime 1%nat (Some 1) None
       sample_world).1
    = (get_status utc (λ _, 0) sample_strftime 1%nat (Some 1) None
         broken_world).1.
Proof.
  assert (H1 : heap sample_world !! 1%nat = Some client_b) by reflexivity.
  assert (H2 : heap broken_world !! 1%nat = Some client_b) by reflexivity.
  exact (conj H1 (conj H2
    (proj1 (answers_ignore_the_clock utc sample_clock (λ _, 0) sample_strftime)
       1%nat 1%nat client_b (Some 1) None sample_world broken_world H1 H2))).
Defined.

(** X16 with the limit of one day of [sample_args], on client [e]
    whose backups are ten days old. *)
Lemma age_limits_change_nothing_witness :
  (∀ m, maxfiledays sample_args = Some m → ∃ ivalue, check_positive ivalue = Ok
     m)
  ∧ (∀ m, maximagedays sample_args = Some m →
          ∃ ivalue, check_positive ivalue = Ok m)
  ∧ (heap sample_world !! 4%nat = Some client_e →
     (get_status utc sample_clock sample_strftime 4%nat (maxfiledays
                                                           sample_args)
        (maximagedays sample_args) sample_world).1
     = (get_status utc sample_clock sample_strftime 4%nat None None
          sample_world).1)
  ∧ (get_global_status utc sample_clock sample_strftime string sample_compile
       sample_fullmatch sample_args [0; 1; 2; 3; 4]%nat ".*" sample_world).1
    = (get_global_status utc sample_clock sample_strftime string sample_compile
         sample_fullmatch
         {| client := client sample_args; maxfiledays := None;
            maximagedays := None |}
         [0; 1; 2; 3; 4]%nat ".*" sample_world).1.
Proof.
  assert (H1 : ∀ m, maxfiledays sample_args = Some m →
                    ∃ ivalue, check_positive ivalue = Ok m).
  { intros m [= <-]. by exists 1. }
  assert (H2 : ∀ m, maximagedays sample_args = Some m →
                    ∃ ivalue, check_positive ivalue = Ok m).
  { intros m [=]. }
  exact (conj H1 (conj H2
    (age_limits_change_nothing utc sample_clock sample_strftime string
       sample_compile
       sample_fullmatch sample_args [0; 1; 2; 3; 4]%nat ".*" sample_world 4%nat
       client_e H1 H2))).
Defined.
